(** * visual.py: chunked fetch of random bytes and descriptive statistics

    A shallow embedding of [src/visual.py].  The script asks the
    Random.org integer service for bytes in chunks, falls back to a
    pseudorandom generator when that fails, and computes four views of the
    buffer: a square image, a histogram, the per-bit fraction of ones and a
    lag autocorrelation.

    Conventions of the model:
    - Python integers are [Z]; lengths and loop counts are [nat].
    - A Python [str] is a [string]; each character stands for the code
      point of the same number (text below U+0100).
    - A NumPy [uint8] array is a [list Z] of values in [0, 255]; a
      [float64] value is an exact rational [Q] (rounding is not modelled).
    - Exceptions are values of [exn]; a computation that can raise returns
      [exn + A].
    - The network and the clock are effects: every [requests.get] and
      [time.sleep] is appended to a trace, and the answer to the i-th
      request comes from an oracle [net i].
    - The fetcher is given twice.  [fetch_random_bytes_from_random_org]
      is the function when NumPy takes every integer that was read and the
      clock takes the pause.  [Strict.fetch_random_bytes_from_random_org]
      also has the checks that [np.array] and [time.sleep] make: the
      conversion of an integer to [uint8], which differs between the
      releases of NumPy, and the longest pause are given to it.  The two
      agree whenever the integers are cast and the pause is taken
      ([strict_fetch_agrees]). *)

From Stdlib Require Import ZArith QArith Qabs Bool String Ascii List Lia.
From Stdlib Require Import DecimalString.
From Stdlib Require DecimalPos DecimalZ.
Import ListNotations.

Open Scope Z_scope.

(** ** Python built-ins used by the script *)

Module Py.

Inductive exn : Type :=
| ZeroDivisionError
| ValueError (msg : string)
| RuntimeError (msg : string)
| RequestException          (* requests.get could not obtain a response *)
| HTTPError (status : Z)    (* raised by Response.raise_for_status *)
| OverflowError.            (* a number too large for the callee *)

Definition result (A : Type) : Type := (exn + A)%type.

(** [a % b]: the remainder has the sign of the divisor, as [Z.modulo];
    a zero divisor raises. *)
Definition mod_ (a b : Z) : result Z :=
  if b =? 0 then inl ZeroDivisionError else inr (a mod b).

(** [a // b]: floor division, as [Z.div]. *)
Definition floordiv (a b : Z) : result Z :=
  if b =? 0 then inl ZeroDivisionError else inr (a / b).

(** [str.isspace] on the code points below 256: TAB..CR, FS..US, space,
    NEL and the no-break space. *)
Definition isspace (c : ascii) : bool :=
  let n := Z.of_nat (nat_of_ascii c) in
  ((9 <=? n) && (n <=? 13)) || ((28 <=? n) && (n <=? 32))
  || (n =? 133) || (n =? 160).

Fixpoint lstrip (s : string) : string :=
  match s with
  | EmptyString => EmptyString
  | String c s' => if isspace c then lstrip s' else s
  end.

Fixpoint rstrip (s : string) : string :=
  match s with
  | EmptyString => EmptyString
  | String c s' =>
      match rstrip s' with
      | EmptyString => if isspace c then EmptyString else String c EmptyString
      | t => String c t
      end
  end.

(** [s.strip()] *)
Definition strip (s : string) : string := rstrip (lstrip s).

(** [s.startswith(p)] *)
Definition startswith (s p : string) : bool := String.prefix p s.

Definition flush (tok : list ascii) : list string :=
  match tok with
  | [] => []
  | _ => [string_of_list_ascii (rev tok)]
  end.

(** [s.split()]: the maximal runs of non-space characters, in order.
    [tok] holds the run being read, last character first. *)
Fixpoint split_from (s : string) (tok : list ascii) : list string :=
  match s with
  | EmptyString => flush tok
  | String c s' =>
      if isspace c then flush tok ++ split_from s' []
      else split_from s' (c :: tok)
  end.

Definition split (s : string) : list string := split_from s [].

Definition digit (c : ascii) : option Z :=
  let n := Z.of_nat (nat_of_ascii c) in
  if (48 <=? n) && (n <=? 57) then Some (n - 48) else None.

(** Digits of a decimal literal, with single underscores allowed between
    digits; [after_digit] says that the previous character was a digit. *)
Fixpoint int_digits (s : string) (acc : Z) (after_digit : bool) : option Z :=
  match s with
  | EmptyString => if after_digit then Some acc else None
  | String c s' =>
      if Ascii.eqb c "_" then
        if after_digit then int_digits s' acc false else None
      else
        match digit c with
        | Some d => int_digits s' (10 * acc + d) true
        | None => None
        end
  end.

(** [int(s)] in base 10: surrounding blanks, an optional sign, digits.
    On anything else Python raises [ValueError]; the message is Python's
    when [repr] prints the literal as it is between single quotes (no
    quote, backslash or unprintable character, at most 200 characters).
    Interpreters from 3.11 on also refuse numerals of more than 4300
    digits; the function has no such limit, and the statements about
    numerals that are read bound their length. *)
Definition int (s : string) : result Z :=
  let t := strip s in
  let v :=
    match t with
    | String "+" d => int_digits d 0 false
    | String "-" d => option_map Z.opp (int_digits d 0 false)
    | _ => int_digits t 0 false
    end in
  match v with
  | Some z => inr z
  | None => inl (ValueError ("invalid literal for int() with base 10: '" ++ s ++ "'"))
  end.

(** [[int(x) for x in xs]]: stops at the first element that raises. *)
Fixpoint ints (xs : list string) : result (list Z) :=
  match xs with
  | [] => inr []
  | x :: xs' =>
      match int x with
      | inl e => inl e
      | inr z =>
          match ints xs' with
          | inl e => inl e
          | inr zs => inr (z :: zs)
          end
      end
  end.

(** [str(z)], as an f-string formats an integer. *)
Definition str (z : Z) : string := NilZero.string_of_int (Z.to_int z).

(** [len(l)] *)
Definition len {A : Type} (l : list A) : Z := Z.of_nat (length l).

End Py.

Import Py.

(** ** NumPy operations used by the script *)

Module Np.

(** The low eight bits of an integer: the C cast to [uint8]. *)
Definition uint8 (v : Z) : Z := v mod 256.

(** [np.array(vals, dtype=np.uint8)] when NumPy takes every integer of
    [vals]: each one is cast.  Which integers NumPy takes depends on its
    release, see [uint8_numpy1] and [uint8_numpy2]. *)
Definition array_uint8 (vals : list Z) : list Z := map uint8 vals.

(** The conversion of one Python integer by
    [np.array(vals, dtype=np.uint8)] in NumPy 1.x: the integer goes
    through a C long (of 64 bits) and is cast; one that does not fit a C
    long raises. *)
Definition uint8_numpy1 (v : Z) : result Z :=
  if (- 2 ^ 63 <=? v) && (v <? 2 ^ 63) then inr (uint8 v)
  else inl OverflowError.

(** The same conversion in NumPy 2: an integer outside [0, 255] raises. *)
Definition uint8_numpy2 (v : Z) : result Z :=
  if (0 <=? v) && (v <=? 255) then inr v else inl OverflowError.

(** [np.empty(n, dtype=np.uint8)]: [n] bytes of whatever the memory
    holds, given by [uninit]; a negative [n] raises. *)
Definition empty (uninit : nat -> Z) (n : Z) : result (list Z) :=
  if n <? 0 then inl (ValueError "negative dimensions are not allowed")
  else inr (map (fun i => uint8 (uninit i)) (seq 0 (Z.to_nat n))).

(** [out[start:stop] = v] for non-negative bounds: the bounds are
    clipped to the array, a one-element [v] is broadcast, any other
    length mismatch raises. *)
Definition setslice (out : list Z) (start stop : Z) (v : list Z)
  : result (list Z) :=
  let a := Nat.min (Z.to_nat start) (length out) in
  let b := Nat.max a (Nat.min (Z.to_nat stop) (length out)) in
  if (length v =? b - a)%nat then
    inr (firstn a out ++ v ++ skipn b out)
  else
    match v with
    | [x] => inr (firstn a out ++ repeat x (b - a) ++ skipn b out)
    | _ => inl (ValueError "could not broadcast input array")
    end.

(** [np.arange(n)] *)
Definition arange (n : nat) : list Z := map Z.of_nat (seq 0 n).

Definition count (p : Z -> bool) (data : list Z) : Z :=
  Z.of_nat (length (filter p data)).

(** [np.histogram(data, bins=edges)[0]] for integer edges: bin [i]
    counts the values in [edges[i], edges[i+1]), and the last bin also
    takes its right edge. *)
Fixpoint histogram (data : list Z) (edges : list Z) : list Z :=
  match edges with
  | lo :: ((hi :: rest) as tl) =>
      match rest with
      | [] => [count (fun v => (lo <=? v) && (v <=? hi)) data]
      | _ => count (fun v => (lo <=? v) && (v <? hi)) data :: histogram data tl
      end
  | _ => []
  end.

Fixpoint rows (r c : nat) (data : list Z) : list (list Z) :=
  match r with
  | O => []
  | S r' => firstn c data :: rows r' c (skipn c data)
  end.

(** [data.reshape(r, c)]: row-major; the sizes must agree. *)
Definition reshape (data : list Z) (r c : Z) : result (list (list Z)) :=
  if (r <? 0) || (c <? 0) then
    inl (ValueError "negative dimensions not allowed")
  else if r * c =? len data then
    inr (rows (Z.to_nat r) (Z.to_nat c) data)
  else inl (ValueError "cannot reshape array").

(** [int(np.sqrt(n))] and [int(np.floor(np.sqrt(n)))] for a length [n]:
    the integer square root (exact for every length below 2^52). *)
Definition isqrt (n : Z) : Z := Z.sqrt n.

(** [a.astype(float)] *)
Definition astype_float (a : list Z) : list Q := map inject_Z a.

Definition sum (a : list Q) : Q := fold_left Qplus a 0%Q.

(** [a.mean()] of a non-empty float array. *)
Definition mean (a : list Q) : Q := (sum a / inject_Z (len a))%Q.

(** The sum of the products of the paired elements. *)
Definition sum_products (a b : list Q) : Q :=
  fold_left (fun acc p => (acc + fst p * snd p)%Q) (combine a b) 0%Q.

(** [np.dot(a, b)] of two one-dimensional arrays: the sum of the
    products when the lengths agree; otherwise NumPy raises. *)
Definition dot (a b : list Q) : result Q :=
  if (length a =? length b)%nat then inr (sum_products a b)
  else inl (ValueError "shapes not aligned").

(** [np.zeros(n)] *)
Definition zeros (n : Z) : result (list Q) :=
  if n <? 0 then inl (ValueError "negative dimensions are not allowed")
  else inr (repeat 0%Q (Z.to_nat n)).

End Np.

(** ** The HTTP client *)

Module Requests.

Record Response : Type := { status_code : Z; text : string }.

(** [r.raise_for_status()]: client and server error codes raise. *)
Definition raise_for_status (r : Response) : result unit :=
  if (400 <=? status_code r) && (status_code r <? 600)
  then inl (HTTPError (status_code r)) else inr tt.

End Requests.

Import Requests.

(** ** The script *)

Module Visual.

(** *** Effects *)

Inductive value : Type := VInt (z : Z) | VStr (s : string).

Inductive event : Type :=
| Get (url : string) (params : list (string * value)) (timeout : Z)
| Sleep (seconds : Q).

Definition trace : Type := list event.

Definition is_get (e : event) : bool :=
  match e with Get _ _ _ => true | Sleep _ => false end.

(** Number of requests issued so far. *)
Definition gets (t : trace) : nat := length (filter is_get t).

(** A computation reads the trace of what has happened, may raise, and
    extends the trace; what was done before a raise stays done. *)
Definition io (A : Type) : Type := trace -> result A * trace.

Definition ret {A : Type} (a : A) : io A := fun t => (inr a, t).

Definition raise {A : Type} (e : exn) : io A := fun t => (inl e, t).

Definition bind {A B : Type} (c : io A) (k : A -> io B) : io B :=
  fun t =>
    match c t with
    | (inl e, t') => (inl e, t')
    | (inr a, t') => k a t'
    end.

Definition lift {A : Type} (r : result A) : io A := fun t => (r, t).

Notation "x <- c ;; k" := (bind c (fun x => k))
  (at level 61, c at next level, right associativity).
Notation "c ;;; k" := (bind c (fun _ => k))
  (at level 61, right associativity).

(** [for _ in range(k): st = body(st)] *)
Fixpoint for_range {S : Type} (k : nat) (body : S -> io S) (st : S) : io S :=
  match k with
  | O => ret st
  | Datatypes.S k' => st' <- body st ;; for_range k' body st'
  end.

(** *** Configuration *)

Record config : Type := {
  N_BYTES : Z;
  CHUNK_SIZE : Z;
  SLEEP_BETWEEN_CALLS : Q;
  USE_FALLBACK_IF_FAIL : bool
}.

(** The values the script is shipped with. *)
Definition shipped : config := {|
  N_BYTES := 256 * 256;
  CHUNK_SIZE := 10000;
  SLEEP_BETWEEN_CALLS := 1 # 2;
  USE_FALLBACK_IF_FAIL := true
|}.

Definition RNG_URL : string := "https://www.random.org/integers/".

Definition params (chunk_size : Z) : list (string * value) :=
  [ ("num", VInt chunk_size); ("min", VInt 0); ("max", VInt 255);
    ("col", VInt 1); ("base", VInt 10); ("format", VStr "plain");
    ("rnd", VStr "new") ]%string.

Definition not_multiple_msg : string :=
  "n_bytes must be a multiple of chunk_size for this simple fetcher.".

Definition service_error_msg (text : string) : string :=
  "Random.org error: " ++ text.

Definition unexpected_count_msg (got expected : Z) : string :=
  "Unexpected count from Random.org: got " ++ str got
    ++ " expected " ++ str expected.

Section Fetch.

(** [net i] answers the request number [i] (from 0): a response, or
    [None] when no response is obtained (connection failure, timeout). *)
Variable net : nat -> option Response.

(** What the memory handed out by [np.empty] holds. *)
Variable uninit : nat -> Z.

(** [requests.get(url, params=params, timeout=timeout)] *)
Definition requests_get (url : string) (ps : list (string * value))
  (timeout : Z) : io Response :=
  fun t =>
    (match net (gets t) with
     | Some r => inr r
     | None => inl RequestException
     end, t ++ [Get url ps timeout]).

(** [time.sleep(seconds)] for a pause that the clock takes. *)
Definition time_sleep (seconds : Q) : io unit :=
  fun t => (inr tt, t ++ [Sleep seconds]).

(** The body of the loop, on the loop state [(out, written)], when NumPy
    takes the integers and the clock takes the pause; [Strict.chunk]
    below has the two checks. *)
Definition chunk (chunk_size : Z) (sleep_between : Q)
  (st : list Z * Z) : io (list Z * Z) :=
  let '(out, written) := st in
  r <- requests_get RNG_URL (params chunk_size) 15 ;;
  lift (raise_for_status r) ;;;
  let text := strip (text r) in
  if startswith text "Error:" then
    raise (RuntimeError (service_error_msg text))
  else
    vals <- lift (ints (split text)) ;;
    if negb (len vals =? chunk_size) then
      raise (RuntimeError (unexpected_count_msg (len vals) chunk_size))
    else
      out' <- lift (Np.setslice out written (written + chunk_size)
                      (Np.array_uint8 vals)) ;;
      time_sleep sleep_between ;;;
      ret (out', written + chunk_size).

Definition fetch_random_bytes_from_random_org
  (n_bytes chunk_size : Z) (sleep_between : Q) : io (list Z) :=
  m <- lift (mod_ n_bytes chunk_size) ;;
  if negb (m =? 0) then raise (ValueError not_multiple_msg)
  else
    out <- lift (Np.empty uninit n_bytes) ;;
    k <- lift (floordiv n_bytes chunk_size) ;;
    st <- for_range (Z.to_nat k) (chunk chunk_size sleep_between) (out, 0) ;;
    ret (fst st).

(** *** The start of [main]: fetch, or fall back *)

(** [prng i]: the i-th draw of the pseudorandom generator. *)
Variable prng : nat -> Z.

(** [rng.integers(0, 256, size=n, dtype=np.uint8)] *)
Definition rng_integers (n : Z) : result (list Z) :=
  if n <? 0 then inl (ValueError "negative dimensions are not allowed")
  else inr (map (fun i => Np.uint8 (prng i)) (seq 0 (Z.to_nat n))).

Inductive outcome : Type :=
| Exit (code : Z)
| Uncaught (e : exn)
| Data (source_label : string) (data : list Z).

Definition remote_label : string := "Random.org (atmospheric noise)".
Definition fallback_label : string :=
  "Fallback: NumPy PRNG (not true randomness)".

(** Lines 92 to 103 of [main]; what is printed to stderr is left out. *)
Definition acquire (cfg : config) : outcome * trace :=
  match fetch_random_bytes_from_random_org (N_BYTES cfg) (CHUNK_SIZE cfg)
          (SLEEP_BETWEEN_CALLS cfg) [] with
  | (inr data, t) => (Data remote_label data, t)
  | (inl _, t) =>
      if negb (USE_FALLBACK_IF_FAIL cfg) then (Exit 1, t)
      else
        match rng_integers (N_BYTES cfg) with
        | inl e => (Uncaught e, t)
        | inr data => (Data fallback_label data, t)
        end
  end.

End Fetch.

(** *** The fetcher with the checks of NumPy and of the clock

    [np.array(vals, dtype=np.uint8)] and [time.sleep] check their
    arguments and can raise.  What NumPy does with an integer outside
    [0, 255] depends on its release, and the longest pause the clock takes
    depends on the platform: both are given. *)

Module Strict.

Section Fetch.

Variable net : nat -> option Response.
Variable uninit : nat -> Z.

(** The conversion of one Python integer by
    [np.array(vals, dtype=np.uint8)]. *)
Variable to_uint8 : Z -> result Z.

(** The longest pause the clock takes, in seconds. *)
Variable longest_sleep : Q.

(** [np.array(vals, dtype=np.uint8)]: the integers are converted in
    order, and the first one that NumPy refuses raises. *)
Fixpoint array_uint8 (vals : list Z) : result (list Z) :=
  match vals with
  | [] => inr []
  | v :: vals' =>
      match to_uint8 v with
      | inl e => inl e
      | inr b =>
          match array_uint8 vals' with
          | inl e => inl e
          | inr bs => inr (b :: bs)
          end
      end
  end.

(** [time.sleep(seconds)]: a pause too long for the clock raises
    [OverflowError], a negative one [ValueError]. *)
Definition time_sleep (seconds : Q) : io unit :=
  if Qle_bool (Qabs seconds) longest_sleep then
    if Qle_bool 0 seconds then fun t => (inr tt, t ++ [Sleep seconds])
    else raise (ValueError "sleep length must be non-negative")
  else raise OverflowError.

(** The body of the loop, on the loop state [(out, written)]. *)
Definition chunk (chunk_size : Z) (sleep_between : Q)
  (st : list Z * Z) : io (list Z * Z) :=
  let '(out, written) := st in
  r <- requests_get net RNG_URL (params chunk_size) 15 ;;
  lift (raise_for_status r) ;;;
  let text := strip (text r) in
  if startswith text "Error:" then
    raise (RuntimeError (service_error_msg text))
  else
    vals <- lift (ints (split text)) ;;
    if negb (len vals =? chunk_size) then
      raise (RuntimeError (unexpected_count_msg (len vals) chunk_size))
    else
      arr <- lift (array_uint8 vals) ;;
      out' <- lift (Np.setslice out written (written + chunk_size) arr) ;;
      time_sleep sleep_between ;;;
      ret (out', written + chunk_size).

Definition fetch_random_bytes_from_random_org
  (n_bytes chunk_size : Z) (sleep_between : Q) : io (list Z) :=
  m <- lift (mod_ n_bytes chunk_size) ;;
  if negb (m =? 0) then raise (ValueError not_multiple_msg)
  else
    out <- lift (Np.empty uninit n_bytes) ;;
    k <- lift (floordiv n_bytes chunk_size) ;;
    st <- for_range (Z.to_nat k) (chunk chunk_size sleep_between) (out, 0) ;;
    ret (fst st).

Variable prng : nat -> Z.

(** Lines 92 to 103 of [main]; what is printed to stderr is left out. *)
Definition acquire (cfg : config) : outcome * trace :=
  match fetch_random_bytes_from_random_org (N_BYTES cfg) (CHUNK_SIZE cfg)
          (SLEEP_BETWEEN_CALLS cfg) [] with
  | (inr data, t) => (Data remote_label data, t)
  | (inl _, t) =>
      if negb (USE_FALLBACK_IF_FAIL cfg) then (Exit 1, t)
      else
        match rng_integers prng (N_BYTES cfg) with
        | inl e => (Uncaught e, t)
        | inr data => (Data fallback_label data, t)
        end
  end.

End Fetch.

End Strict.

(** *** The statistics of [main] *)

(** [range(a, b)] *)
Definition range (a b : Z) : list Z :=
  map (fun i => a + Z.of_nat i) (seq 0 (Z.to_nat (b - a))).

(** [x[:-lag]] for [lag >= 1], and [x[lag:]]. *)
Definition drop_last {A : Type} (lag : Z) (x : list A) : list A :=
  firstn (length x - Z.to_nat lag)%nat x.
Definition drop_first {A : Type} (lag : Z) (x : list A) : list A :=
  skipn (Z.to_nat lag) x.

(** Lines 75 to 89, for a non-empty series (on an empty one NumPy
    computes with nan, which the rationals do not have).  The loop stops
    at the first [np.dot] that raises. *)
Definition compute_autocorrelation (series : list Z) (max_lag : Z)
  : result (list Q) :=
  let x := Np.astype_float series in
  let m := Np.mean x in
  let x := map (fun v => (v - m)%Q) x in
  match Np.dot x x with
  | inl e => inl e
  | inr xx =>
      let var := (xx / inject_Z (len x))%Q in
      if Qeq_bool var 0 then Np.zeros max_lag
      else
        fold_left
          (fun acf lag =>
             match acf with
             | inl e => inl e
             | inr acf =>
                 match Np.dot (drop_last lag x) (drop_first lag x) with
                 | inl e => inl e
                 | inr d =>
                     let v := (d / inject_Z (len x))%Q in
                     inr (acf ++ [(v / var)%Q])
                 end
             end)
          (range 1 (max_lag + 1)) (inr [])
  end.

(** Lines 106 to 110: the side of the image and the cropped data. *)
Definition crop (data : list Z) : Z * list Z :=
  let side := Np.isqrt (len data) in
  if negb (side * side =? len data) then
    let side := Np.isqrt (len data) in
    (side, firstn (Z.to_nat (side * side)) data)
  else (side, data).

Definition side (data : list Z) : Z := fst (crop data).

(** Line 111, on the data as acquired. *)
Definition img (data : list Z) : result (list (list Z)) :=
  let '(side, data) := crop data in Np.reshape data side side.

(** Line 114. *)
Definition hist_counts (data : list Z) : list Z :=
  Np.histogram data (Np.arange 257).

(** Lines 117 and 118. *)
Definition bit_counts (data : list Z) : list (list Z) :=
  map (fun b => map (fun v => Z.land (Z.shiftr v b) 1) data) (range 0 8).

Definition ones_ratio (data : list Z) : list Q :=
  map (fun bc => Np.mean (Np.astype_float bc)) (bit_counts data).

Record views : Type := {
  v_img : list (list Z);
  v_hist_counts : list Z;
  v_ones_ratio : list Q;
  v_acf : list Q
}.

(** Lines 106 to 121: everything [main] hands to the plots. *)
Definition statistics (data : list Z) : result views :=
  let '(side, data) := crop data in
  match Np.reshape data side side with
  | inl e => inl e
  | inr im =>
      match compute_autocorrelation data 100 with
      | inl e => inl e
      | inr acf =>
          inr {| v_img := im; v_hist_counts := hist_counts data;
                 v_ones_ratio := ones_ratio data; v_acf := acf |}
      end
  end.

End Visual.

Import Visual.

(** ** HTTP-Int-Gen.py: one request to the integer generator *)

Module HttpIntGen.

(** [requests.get(url, params=params)]: the call gives no timeout. *)
Inductive event : Type :=
| Get (url : string) (params : list (string * value)).

Definition url : string := "https://www.random.org/integers/".

Definition params (num minimum maximum base cols : Z)
  : list (string * value) :=
  [ ("num", VInt num); ("min", VInt minimum); ("max", VInt maximum);
    ("col", VInt cols); ("base", VInt base); ("format", VStr "plain");
    ("rnd", VStr "new") ]%string.

Section Fetch.

(** [int(x, base)], the conversion of the interpreter, taken as given. *)
Variable int_base : string -> Z -> result Z.

(** The answer to the request; [None] when no response is obtained. *)
Variable answer : option Response.

(** [[int(x, base) for x in xs]] *)
Fixpoint ints_base (xs : list string) (base : Z) : result (list Z) :=
  match xs with
  | [] => inr []
  | x :: xs' =>
      match int_base x base with
      | inl e => inl e
      | inr z =>
          match ints_base xs' base with
          | inl e => inl e
          | inr zs => inr (z :: zs)
          end
      end
  end.

(** The function of the script; the caller's defaults are [base = 10] and
    [cols = 1].  The result comes with the requests that were issued. *)
Definition fetch_true_random_integers (num minimum maximum base cols : Z)
  : result (list Z) * list event :=
  let t := [Get url (params num minimum maximum base cols)] in
  match answer with
  | None => (inl RequestException, t)
  | Some resp =>
      match raise_for_status resp with
      | inl e => (inl e, t)
      | inr _ =>
          let text := strip (text resp) in
          if startswith text "Error:" then
            (inl (RuntimeError ("random.org error: " ++ text)), t)
          else (ints_base (split text) base, t)
      end
  end.

End Fetch.

End HttpIntGen.

(** ** json-rpc.py: one call of the JSON-RPC interface *)

Module JsonRpc.

(** A decoded JSON value, as [resp.json()] returns it: [null] is [None],
    an object is a [dict] (here the list of its entries, each key once),
    an array is a [list]; a float is an exact rational. *)
#[local] Unset Elimination Schemes.
Inductive json : Type :=
| JNull
| JBool (b : bool)
| JInt (z : Z)
| JFloat (q : Q)
| JStr (s : string)
| JList (l : list json)
| JDict (d : list (string * json)).
#[local] Set Elimination Schemes.

Inductive exn : Type :=
| RequestException
| HTTPError (status : Z)
| JSONDecodeError
| RuntimeError (msg : string)
| TypeError
| AttributeError
| KeyError (key : string).

(** A response: its status and its body decoded, [None] when the body is
    not JSON. *)
Record Reply : Type := { status : Z; body : option json }.

Inductive event : Type :=
| Post (url : string) (payload : json) (headers : list (string * string)).

Definition invoke_url : string := "https://api.random.org/json-rpc/4/invoke".

Fixpoint lookup (key : string) (d : list (string * json)) : option json :=
  match d with
  | [] => None
  | (k, v) :: d' => if String.eqb k key then Some v else lookup key d'
  end.

(** [needle in hay] for two strings. *)
Fixpoint contains (needle hay : string) : bool :=
  String.prefix needle hay
  || match hay with
     | EmptyString => false
     | String _ hay' => contains needle hay'
     end.

Definition is_str (key : string) (v : json) : bool :=
  match v with JStr s => String.eqb s key | _ => false end.

(** [key in data] *)
Definition in_ (key : string) (data : json) : exn + bool :=
  match data with
  | JDict d => inr (match lookup key d with Some _ => true | None => false end)
  | JList l => inr (existsb (is_str key) l)
  | JStr s => inr (contains key s)
  | _ => inl TypeError
  end.

(** [data[key]] for a string key. *)
Definition getitem (data : json) (key : string) : exn + json :=
  match data with
  | JDict d =>
      match lookup key d with
      | Some v => inr v
      | None => inl (KeyError key)
      end
  | _ => inl TypeError
  end.

(** [data.get(key)] *)
Definition get (data : json) (key : string) : exn + json :=
  match data with
  | JDict d =>
      match lookup key d with
      | Some v => inr v
      | None => inr JNull
      end
  | _ => inl AttributeError
  end.

(** The truth value of an object, as [or] tests it. *)
Definition truthy (v : json) : bool :=
  match v with
  | JNull => false
  | JBool b => b
  | JInt z => negb (z =? 0)
  | JFloat q => negb (Qeq_bool q 0)
  | JStr s => negb (String.eqb s "")
  | JList l => match l with [] => false | _ => true end
  | JDict d => match d with [] => false | _ => true end
  end.

Definition method (signed : bool) : string :=
  if signed then "generateSignedIntegers" else "generateIntegers".

Definition payload (api_key : string) (num minimum maximum : Z)
  (signed : bool) : json :=
  JDict [ ("jsonrpc", JStr "2.0");
          ("method", JStr (method signed));
          ("params",
           JDict [ ("apiKey", JStr api_key); ("n", JInt num);
                   ("min", JInt minimum); ("max", JInt maximum);
                   ("replacement", JBool true) ]);
          ("id", JInt 1) ]%string.

Definition headers : list (string * string) :=
  [("Content-Type", "application/json")]%string.

Section Fetch.

(** [str(v)], as the f-string formats the error object. *)
Variable str_json : json -> string.

(** The answer to the request; [None] when no response is obtained. *)
Variable reply : option Reply.

(** Lines 38 to 43, on the decoded body. *)
Definition read (data : json) (signed : bool) : exn + (json * json) :=
  match in_ "error" data with
  | inl e => inl e
  | inr true =>
      match getitem data "error" with
      | inl e => inl e
      | inr v => inl (RuntimeError ("random.org error: " ++ str_json v))
      end
  | inr false =>
      match get data "result" with
      | inl e => inl e
      | inr res =>
          match (if truthy res then inr res else get data "random") with
          | inl e => inl e
          | inr result =>
              match getitem result "data" with
              | inl e => inl e
              | inr integers =>
                  match (if signed then get data "signature" else inr JNull) with
                  | inl e => inl e
                  | inr signature => inr (integers, signature)
                  end
              end
          end
      end
  end.

(** The function of the script, with the requests that were issued. *)
Definition fetch_random_jsonrpc (api_key : string) (num minimum maximum : Z)
  (signed : bool) : (exn + (json * json)) * list event :=
  let t := [Post invoke_url (payload api_key num minimum maximum signed)
              headers] in
  match reply with
  | None => (inl RequestException, t)
  | Some resp =>
      if (400 <=? status resp) && (status resp <? 600)
      then (inl (HTTPError (status resp)), t)
      else
        match body resp with
        | None => (inl JSONDecodeError, t)
        | Some data => (read data signed, t)
        end
  end.

End Fetch.

End JsonRpc.

(** ** Vocabulary of the statements *)

(** The request was answered with a non-error status, the body carries no
    error marker, and its tokens are the integers [vals]: what lines 58 to
    65 obtain from a response before the count is checked. *)
Definition parses_to (r : Response) (vals : list Z) : Prop :=
  raise_for_status r = inr tt /\
  startswith (strip (text r)) "Error:" = false /\
  ints (split (strip (text r))) = inr vals.

(** One round of the loop as the outside world sees it. *)
Definition round (chunk_size : Z) (sleep_between : Q) : trace :=
  [Get RNG_URL (params chunk_size) 15; Sleep sleep_between].

Definition rounds (k : nat) (chunk_size : Z) (sleep_between : Q) : trace :=
  concat (repeat (round chunk_size sleep_between) k).

(** Every element is a byte. *)
Definition bytes (l : list Z) : Prop := Forall (fun v => 0 <= v <= 255) l.

(** The conversion takes the integer [v] and keeps its low eight bits. *)
Definition casts (to_uint8 : Z -> result Z) (v : Z) : Prop :=
  to_uint8 v = inr (Np.uint8 v).

(** The clock takes the pause: it is not negative and not too long. *)
Definition takes_pause (longest_sleep seconds : Q) : Prop :=
  (0 <= seconds <= longest_sleep)%Q.

(** The decimal numeral of [z] has at most 4300 digits. *)
Definition short_numeral (z : Z) : Prop := Z.abs z < 10 ^ 4300.

(** A plain-text answer of the service, and two oracles for examples. *)
Definition ok (body : string) : option Response :=
  Some {| status_code := 200; text := body |}.

Definition answers (l : list (option Response)) (i : nat) : option Response :=
  nth i l None.

Definition nl : string := String "010" EmptyString.

(** The answers [vals g], [vals (g+1)], ... as stored in the buffer. *)
Definition stored (vals : nat -> list Z) (g k : nat) : list Z :=
  concat (map (fun j => Np.array_uint8 (vals j)) (seq g k)).

(** The number of rounds of the loop. *)
Definition chunks (n_bytes chunk_size : Z) : nat :=
  Z.to_nat (n_bytes / chunk_size).

(** What the generator alone produces for [n] bytes. *)
Definition pseudorandom (prng : nat -> Z) (n : Z) : list Z :=
  map (fun i => Np.uint8 (prng i)) (seq 0 (Z.to_nat n)).

(** The sum of a list of counts. *)
Definition total (l : list Z) : Z := fold_right Z.add 0 l.

(** Unit bins from [a] to [a + m + 2]. *)
Definition unit_edges (a m : nat) : list Z := map Z.of_nat (seq a (S (S m))).

(** The sum of a list, from its end: the reading of the formulas. *)
Definition Qsum (l : list Q) : Q := fold_right Qplus 0%Q l.

(** The bit of [byte] at position [p], as the script extracts it. *)
Definition bit (p byte : Z) : Z := Z.land (Z.shiftr byte p) 1.

(** [x] as the function computes it. *)
Definition code_x (series : list Z) : list Q :=
  let x := Np.astype_float series in
  map (fun v => (v - Np.mean x)%Q) x.

(** [var] as the function computes it. *)
Definition code_var (series : list Z) : Q :=
  let x := code_x series in (Np.sum_products x x / inject_Z (len x))%Q.

(** The value the loop appends for [lag], when [np.dot] takes the two
    slices. *)
Definition code_acf (series : list Z) (lag : Z) : Q :=
  let x := code_x series in
  (Np.sum_products (drop_last lag x) (drop_first lag x) / inject_Z (len x)
   / code_var series)%Q.

(** ** The formulas of the specification *)

(** The formulas of the specification, read as they are written: [x] is
    the buffer as reals minus its sample mean, [x[a:b]] holds the elements
    of index [a] up to [b] excluded, and the value at lag [L] is
    [dot(x[0:n-L], x[L:n]) / n / variance] with [variance = dot(x,x) / n]. *)
Definition spec_slice (x : list Q) (a b : nat) : list Q :=
  firstn (b - a) (skipn a x).

Definition spec_dot (u v : list Q) : Q :=
  Qsum (map (fun p => (fst p * snd p)%Q) (combine u v)).

Definition spec_mean (b : list Q) : Q := (Qsum b / inject_Z (len b))%Q.

Definition spec_x (buffer : list Z) : list Q :=
  let reals := map inject_Z buffer in
  map (fun v => (v - spec_mean reals)%Q) reals.

Definition spec_variance (buffer : list Z) : Q :=
  let x := spec_x buffer in (spec_dot x x / inject_Z (len x))%Q.

Definition spec_acf (buffer : list Z) (L : nat) : Q :=
  let x := spec_x buffer in
  let n := length x in
  (spec_dot (spec_slice x 0 (n - L)) (spec_slice x L n) / inject_Z (len x)
   / spec_variance buffer)%Q.

(** What the parse of the answer to request [j] yields; the empty list
    when there is no answer or a token is not an integer. *)
Definition answer_vals (net : nat -> option Response) (j : nat) : list Z :=
  match net j with
  | Some r =>
      match ints (split (strip (text r))) with
      | inr vals => vals
      | inl _ => []
      end
  | None => []
  end.

(** The request of one chunk, as it appears in the trace. *)
Definition request (chunk_size : Z) : event :=
  Get RNG_URL (params chunk_size) 15.

(** The content of [np.empty(n, dtype=np.uint8)]: whatever the memory
    holds, read as bytes. *)
Definition uninitialised (uninit : nat -> Z) (n : Z) : list Z :=
  map (fun i => Np.uint8 (uninit i)) (seq 0 (Z.to_nat n)).

(** The plain answer of the service for one column: every integer in
    decimal on a line of its own. *)
Fixpoint column (zs : list Z) : string :=
  match zs with
  | [] => EmptyString
  | z :: zs' => str z ++ nl ++ column zs'
  end.

(** The value of decimal digits read from the left, starting from [acc]. *)
Fixpoint uint_value (d : Decimal.uint) (acc : Z) : Z :=
  match d with
  | Decimal.Nil => acc
  | Decimal.D0 d' => uint_value d' (10 * acc)
  | Decimal.D1 d' => uint_value d' (10 * acc + 1)
  | Decimal.D2 d' => uint_value d' (10 * acc + 2)
  | Decimal.D3 d' => uint_value d' (10 * acc + 3)
  | Decimal.D4 d' => uint_value d' (10 * acc + 4)
  | Decimal.D5 d' => uint_value d' (10 * acc + 5)
  | Decimal.D6 d' => uint_value d' (10 * acc + 6)
  | Decimal.D7 d' => uint_value d' (10 * acc + 7)
  | Decimal.D8 d' => uint_value d' (10 * acc + 8)
  | Decimal.D9 d' => uint_value d' (10 * acc + 9)
  end.

(** No character of [s] is a blank. *)
Definition no_space (s : string) : Prop :=
  Forall (fun c => isspace c = false) (list_ascii_of_string s).

(** The characters of a decimal numeral. *)
Definition numeral_chars : list ascii :=
  ["0"; "1"; "2"; "3"; "4"; "5"; "6"; "7"; "8"; "9"; "-"]%char.

(** ** Worked inputs *)

(** Two answers for four bytes in chunks of two; the second one carries
    values outside 0..255. *)
Definition net2 : nat -> option Response :=
  answers [ok "1 2"; ok ("300" ++ nl ++ "-1" ++ nl)].

Definition vals2 (j : nat) : list Z := nth j [[1; 2]; [300; -1]] [].

(** Two answers of bytes only. *)
Definition net_bytes : nat -> option Response :=
  answers [ok ("7" ++ nl ++ "0" ++ nl); ok ("255" ++ nl ++ "16" ++ nl)].

Definition vals_bytes (j : nat) : list Z := nth j [[7; 0]; [255; 16]] [].

(** Three good answers of 25 values each, then one of 22. *)
Definition numbers (n : nat) : string :=
  String.concat nl (map (fun i => str (Z.of_nat i)) (seq 0 n)).

Definition net_short : nat -> option Response :=
  answers [ok (numbers 25); ok (numbers 25); ok (numbers 25); ok (numbers 22)].




(** One good answer, then no response. *)
Definition net_dropped : nat -> option Response :=
  answers [ok ("7" ++ nl ++ "0" ++ nl); None].

(** Status 503 with a body that would have been a good answer. *)
Definition net_unavailable : nat -> option Response :=
  answers [Some {| status_code := 503; text := "1 2" |}].


(** An entry of a decoded object, [null] when the key is absent. *)
Definition entry (key : string) (d : list (string * JsonRpc.json))
  : JsonRpc.json :=
  match JsonRpc.lookup key d with
  | Some v => v
  | None => JsonRpc.JNull
  end.

(** What [data.get("result") or data.get("random")] selects. *)
Definition chosen_result (d : list (string * JsonRpc.json)) : JsonRpc.json :=
  if JsonRpc.truthy (entry "result" d) then entry "result" d
  else entry "random" d.

(** A status that [raise_for_status] lets through. *)
Definition status_passes (status : Z) : Prop := ~ 400 <= status < 600.

(** The entries of a reply that nests the numbers under
    [result.random.data]. *)
Definition nested_result : list (string * JsonRpc.json) :=
  [ ("random",
     JsonRpc.JDict
       [ ("data", JsonRpc.JList [JsonRpc.JInt 4; JsonRpc.JInt 9]);
         ("completionTime", JsonRpc.JStr "2011-10-10 13:19:12Z") ]);
    ("bitsUsed", JsonRpc.JInt 16);
    ("bitsLeft", JsonRpc.JInt 199984);
    ("requestsLeft", JsonRpc.JInt 9999);
    ("advisoryDelay", JsonRpc.JInt 0) ]%string.

Definition nested_reply : list (string * JsonRpc.json) :=
  [ ("jsonrpc", JsonRpc.JStr "2.0");
    ("result", JsonRpc.JDict nested_result);
    ("id", JsonRpc.JInt 1) ]%string.

(** The entries of a reply with the numbers directly under [result.data]. *)
Definition flat_result : list (string * JsonRpc.json) :=
  [("data", JsonRpc.JList [JsonRpc.JInt 4; JsonRpc.JInt 9])]%string.

Definition flat_reply : list (string * JsonRpc.json) :=
  [ ("result", JsonRpc.JDict flat_result);
    ("signature", JsonRpc.JStr "c2ln") ]%string.

(** The entries of an error reply of the protocol, with a result beside. *)
Definition error_object : JsonRpc.json :=
  JsonRpc.JDict
    [ ("code", JsonRpc.JInt 402);
      ("message", JsonRpc.JStr "The API key has no requests left") ]%string.

Definition error_reply : list (string * JsonRpc.json) :=
  [ ("jsonrpc", JsonRpc.JStr "2.0");
    ("error", error_object);
    ("result", JsonRpc.JDict flat_result);
    ("id", JsonRpc.JInt 1) ]%string.

(** A reply with status 200 and the object of these entries for a body. *)
Definition replied (d : list (string * JsonRpc.json)) : JsonRpc.Reply :=
  {| JsonRpc.status := 200; JsonRpc.body := Some (JsonRpc.JDict d) |}.

(** A stand-in for [str] on decoded values, for examples. *)
Definition show (v : JsonRpc.json) : string := "<error object>".

(** Memory that happens to hold zeros; also used as a generator. *)
Definition zero_memory (i : nat) : Z := 0.

(** * Facts *)

(** ** The built-ins on small inputs *)

Example strip_example :
  strip (String "009" (String "010" " 12 7 ")) = "12 7"%string.
Proof. reflexivity. Qed.

Example split_example :
  split ("  4" ++ nl ++ "255" ++ String "009" "17 ") = ["4"; "255"; "17"]%string.
Proof. reflexivity. Qed.

Example ints_example :
  ints ["4"; "-1"; "+0_7"; "300"]%string = inr [4; -1; 7; 300].
Proof. reflexivity. Qed.

Example ints_rejects :
  ints ["4"; "x7"]%string =
  inl (ValueError "invalid literal for int() with base 10: 'x7'").
Proof. reflexivity. Qed.

Example str_example : (str 22, str 0, str (-3)) = ("22", "0", "-3")%string.
Proof. reflexivity. Qed.

Example uint8_example : map Np.uint8 [0; 255; 256; 300; -1] = [0; 255; 0; 44; 255].
Proof. reflexivity. Qed.

(** ** The effect monad *)

Lemma gets_app (t u : trace) : gets (t ++ u) = (gets t + gets u)%nat.
Proof. unfold gets. now rewrite filter_app, length_app. Qed.

Lemma gets_rounds (k : nat) (c : Z) (d : Q) : gets (rounds k c d) = k.
Proof.
  unfold rounds. induction k as [|k IH]; cbn [repeat concat]; [reflexivity|].
  rewrite gets_app, IH. reflexivity.
Qed.

Lemma rounds_S (k : nat) (c : Z) (d : Q) :
  rounds (S k) c d = round c d ++ rounds k c d.
Proof. reflexivity. Qed.

(** ** One chunk *)

Section ChunkFacts.

Variable net : nat -> option Response.
Variables (chunk_size : Z) (sleep_between : Q).
Hypothesis chunk_size_pos : 0 < chunk_size.

Lemma setslice_exact (out : list Z) (written : Z) (v : list Z) :
  0 <= written ->
  len v = chunk_size ->
  written + chunk_size <= len out ->
  Np.setslice out written (written + chunk_size) v =
  inr (firstn (Z.to_nat written) out ++ v
         ++ skipn (Z.to_nat (written + chunk_size)) out).
Proof.
  unfold Np.setslice, len. intros Hw Hv Hfit.
  replace (Nat.min (Z.to_nat written) (length out)) with (Z.to_nat written) by lia.
  replace (Nat.min (Z.to_nat (written + chunk_size)) (length out))
    with (Z.to_nat (written + chunk_size)) by lia.
  replace (Nat.max (Z.to_nat written) (Z.to_nat (written + chunk_size)))
    with (Z.to_nat (written + chunk_size)) by lia.
  replace (length v =? Z.to_nat (written + chunk_size) - Z.to_nat written)%nat
    with true; [reflexivity|].
  symmetry. apply Nat.eqb_eq. lia.
Qed.

(** A well-formed answer of the right size is written at [written]. *)
Lemma chunk_good (out : list Z) (written : Z) (t : trace)
  (r : Response) (vals : list Z) :
  net (gets t) = Some r ->
  parses_to r vals ->
  len vals = chunk_size ->
  0 <= written ->
  written + chunk_size <= len out ->
  chunk net chunk_size sleep_between (out, written) t =
  (inr (firstn (Z.to_nat written) out ++ Np.array_uint8 vals
          ++ skipn (Z.to_nat (written + chunk_size)) out,
        written + chunk_size),
   t ++ round chunk_size sleep_between).
Proof.
  intros Hnet (Hst & Hmark & Hints) Hlen Hw Hfit.
  unfold chunk, bind, requests_get, lift, raise, time_sleep, ret.
  rewrite Hnet, Hst, Hmark, Hints.
  replace (len vals =? chunk_size) with true by (symmetry; apply Z.eqb_eq; exact Hlen).
  cbn [negb].
  rewrite setslice_exact; try assumption.
  - now rewrite <- app_assoc.
  - unfold len, Np.array_uint8 in *. now rewrite length_map.
Qed.




End ChunkFacts.

(** ** The loop *)

Lemma firstn_splice {A : Type} (p m s : list A) :
  firstn (length p + length m) (p ++ m ++ s) = p ++ m.
Proof.
  rewrite app_assoc, <- length_app, firstn_app, firstn_all, Nat.sub_diag.
  cbn [firstn]. now rewrite app_nil_r.
Qed.

Lemma skipn_splice {A : Type} (p m s : list A) (n : nat) :
  skipn (length p + length m + n) (p ++ m ++ s) = skipn n s.
Proof.
  rewrite app_assoc, <- length_app, skipn_app, skipn_all2 by lia.
  cbn [app]. f_equal. lia.
Qed.

Section LoopFacts.

Variable net : nat -> option Response.
Variables (chunk_size : Z) (sleep_between : Q).
Hypothesis chunk_size_pos : 0 < chunk_size.

Lemma length_stored (vals : nat -> list Z) (g k : nat) :
  (forall j, (j < k)%nat -> len (vals (g + j)%nat) = chunk_size) ->
  len (stored vals g k) = Z.of_nat k * chunk_size.
Proof.
  unfold stored, len. revert g. induction k as [|k IH]; intros g H.
  - reflexivity.
  - cbn [seq map concat]. rewrite length_app, Nat2Z.inj_add, IH.
    + unfold Np.array_uint8. rewrite length_map.
      specialize (H 0%nat ltac:(lia)). rewrite Nat.add_0_r in H.
      unfold len in H. lia.
    + intros j Hj. specialize (H (S j) ltac:(lia)).
      now replace (S g + j)%nat with (g + S j)%nat by lia.
Qed.

(** [k] well-formed answers of the right size fill the next [k] chunks
    of the buffer, in order, one request and one pause per chunk. *)
Lemma loop_good (vals : nat -> list Z) (k : nat) :
  forall (out : list Z) (written : Z) (t : trace),
    0 <= written ->
    written + Z.of_nat k * chunk_size <= len out ->
    (forall j, (j < k)%nat ->
       exists r, net (gets t + j)%nat = Some r /\
                 parses_to r (vals (gets t + j)%nat) /\
                 len (vals (gets t + j)%nat) = chunk_size) ->
    for_range k (chunk net chunk_size sleep_between) (out, written) t =
    (inr (firstn (Z.to_nat written) out ++ stored vals (gets t) k
            ++ skipn (Z.to_nat (written + Z.of_nat k * chunk_size)) out,
          written + Z.of_nat k * chunk_size),
     t ++ rounds k chunk_size sleep_between).
Proof.
  induction k as [|k IH]; intros out written t Hw Hfit Hnet.
  - cbn [for_range]. unfold ret, stored, rounds. cbn [seq map concat repeat app].
    rewrite app_nil_r, Z.mul_0_l, Z.add_0_r, firstn_skipn. reflexivity.
  - destruct (Hnet 0%nat ltac:(lia)) as (r & Hr & Hp & Hl).
    rewrite Nat.add_0_r in Hr, Hp, Hl.
    cbn [for_range]. unfold bind at 1.
    rewrite (chunk_good net chunk_size sleep_between chunk_size_pos
               out written t r (vals (gets t))) by (assumption || lia).
    assert (Hg : gets (t ++ round chunk_size sleep_between) = S (gets t)).
    { rewrite gets_app. cbn. lia. }
    assert (Hlen1 : length (firstn (Z.to_nat written) out) = Z.to_nat written).
    { rewrite length_firstn. unfold len in Hfit. lia. }
    assert (Hlen2 : length (Np.array_uint8 (vals (gets t))) = Z.to_nat chunk_size).
    { unfold Np.array_uint8. rewrite length_map. unfold len in Hl. lia. }
    assert (Hk : 0 <= Z.of_nat k * chunk_size) by nia.
    rewrite IH; [ | lia | | ].
    + rewrite Hg, rounds_S, <- app_assoc. do 3 f_equal.
      * replace (Z.to_nat (written + chunk_size))
          with (length (firstn (Z.to_nat written) out)
                + length (Np.array_uint8 (vals (gets t))))%nat by lia.
        rewrite firstn_splice.
        replace (Z.to_nat (written + chunk_size + Z.of_nat k * chunk_size))
          with (length (firstn (Z.to_nat written) out)
                + length (Np.array_uint8 (vals (gets t)))
                + Z.to_nat (Z.of_nat k * chunk_size))%nat by lia.
        rewrite skipn_splice, skipn_skipn.
        unfold stored. cbn [seq map concat]. rewrite <- !app_assoc.
        do 4 f_equal. lia.
      * lia.
    + unfold len in *. rewrite !length_app, length_skipn, Hlen1, Hlen2. lia.
    + intros j Hj. rewrite Hg.
      replace (S (gets t) + j)%nat with (gets t + S j)%nat by lia.
      apply Hnet. lia.
Qed.


End LoopFacts.

(** ** Text of an error answer *)


Lemma rstrip_keeps (c : ascii) (s : string) :
  isspace c = false -> rstrip (String c s) = String c (rstrip s).
Proof. intros H. cbn [rstrip]. rewrite H. now destruct (rstrip s). Qed.



(** ** The fetcher as a whole *)

Section FetchFacts.

Variable net : nat -> option Response.
Variable uninit : nat -> Z.
Variables (n_bytes chunk_size : Z) (sleep_between : Q).

Let fetch := fetch_random_bytes_from_random_org net uninit
               n_bytes chunk_size sleep_between.

Lemma fetch_enters_loop (t : trace) :
  0 < chunk_size -> 0 <= n_bytes -> mod_ n_bytes chunk_size = inr 0 ->
  fetch t =
  match for_range (chunks n_bytes chunk_size)
          (chunk net chunk_size sleep_between)
          (map (fun i => Np.uint8 (uninit i)) (seq 0 (Z.to_nat n_bytes)), 0) t
  with
  | (inl e, t') => (inl e, t')
  | (inr st, t') => (inr (fst st), t')
  end.
Proof.
  intros Hc Hn Hm. unfold fetch, fetch_random_bytes_from_random_org.
  unfold bind at 1. unfold lift at 1. rewrite Hm. cbn [Z.eqb negb].
  unfold bind at 1. unfold lift at 1. unfold Np.empty.
  replace (n_bytes <? 0) with false by (symmetry; apply Z.ltb_ge; lia).
  unfold bind at 1. unfold lift at 1. unfold floordiv.
  replace (chunk_size =? 0) with false by (symmetry; apply Z.eqb_neq; lia).
  unfold bind, ret, chunks.
  destruct (for_range _ _ _ t) as [[e|st] t']; reflexivity.
Qed.

Lemma exact_division :
  0 < chunk_size -> mod_ n_bytes chunk_size = inr 0 ->
  Z.of_nat (chunks n_bytes chunk_size) * chunk_size = n_bytes \/ n_bytes < 0.
Proof.
  unfold mod_, chunks. intros Hc Hm.
  destruct (chunk_size =? 0); [discriminate|]. injection Hm as Hm.
  pose proof (Z.div_mod n_bytes chunk_size ltac:(lia)) as Hdm.
  destruct (Z_lt_le_dec n_bytes 0) as [|Hn]; [now right|left].
  pose proof (Z.div_pos n_bytes chunk_size Hn Hc). nia.
Qed.

(** Every chunk well-formed and of the right size: the buffer holds the
    stored answers in order, after one request and one pause each. *)
Lemma fetch_good (vals : nat -> list Z) :
  0 < chunk_size -> 0 <= n_bytes -> mod_ n_bytes chunk_size = inr 0 ->
  (forall j, (j < chunks n_bytes chunk_size)%nat ->
     exists r, net j = Some r /\ parses_to r (vals j) /\
               len (vals j) = chunk_size) ->
  fetch [] =
  (inr (stored vals 0 (chunks n_bytes chunk_size)),
   rounds (chunks n_bytes chunk_size) chunk_size sleep_between).
Proof.
  intros Hc Hn Hm Hgood.
  destruct (exact_division Hc Hm) as [Hk|]; [|lia].
  rewrite fetch_enters_loop by assumption.
  rewrite (loop_good net chunk_size sleep_between Hc vals).
  - cbn [fst Z.to_nat firstn app gets filter length Z.add].
    rewrite Hk. rewrite skipn_all2, app_nil_r; [reflexivity|].
    rewrite length_map, length_seq. lia.
  - lia.
  - unfold len. rewrite length_map, length_seq. lia.
  - exact Hgood.
Qed.


End FetchFacts.

Lemma stored_concat (vals : nat -> list Z) (g k : nat) :
  stored vals g k = map Np.uint8 (concat (map vals (seq g k))).
Proof.
  unfold stored, Np.array_uint8. now rewrite concat_map, map_map.
Qed.

Lemma uint8_bytes (l : list Z) : bytes (map Np.uint8 l).
Proof.
  unfold bytes. apply Forall_forall. intros v Hv.
  apply in_map_iff in Hv as (w & <- & _). unfold Np.uint8.
  pose proof (Z.mod_pos_bound w 256 ltac:(lia)). lia.
Qed.

Lemma uint8_id (l : list Z) : bytes l -> map Np.uint8 l = l.
Proof.
  unfold bytes. induction 1 as [|v l Hv _ IH]; cbn [map]; [reflexivity|].
  rewrite IH. unfold Np.uint8. now rewrite Z.mod_small by lia.
Qed.

Lemma bytes_concat (ls : list (list Z)) :
  (forall l, In l ls -> bytes l) -> bytes (concat ls).
Proof.
  unfold bytes. intros H. apply Forall_concat, Forall_forall. exact H.
Qed.


(** ** What [main] makes of the fetch *)

Section AcquireFacts.

Variable net : nat -> option Response.
Variables uninit prng : nat -> Z.
Variables (n_bytes chunk_size : Z) (sleep_between : Q) (fallback : bool).

Let cfg : config :=
  {| N_BYTES := n_bytes; CHUNK_SIZE := chunk_size;
     SLEEP_BETWEEN_CALLS := sleep_between; USE_FALLBACK_IF_FAIL := fallback |}.

Lemma acquire_remote (data : list Z) (t : trace) :
  fetch_random_bytes_from_random_org net uninit n_bytes chunk_size
    sleep_between [] = (inr data, t) ->
  acquire net uninit prng cfg = (Data remote_label data, t).
Proof. unfold acquire, cfg. cbn. now intros ->. Qed.

Lemma acquire_failed (e : exn) (t : trace) :
  0 <= n_bytes ->
  fetch_random_bytes_from_random_org net uninit n_bytes chunk_size
    sleep_between [] = (inl e, t) ->
  acquire net uninit prng cfg =
  (if fallback then Data fallback_label (pseudorandom prng n_bytes) else Exit 1,
   t).
Proof.
  unfold acquire, cfg, rng_integers, pseudorandom. cbn. intros Hn ->.
  destruct fallback; cbn [negb]; [|reflexivity].
  now replace (n_bytes <? 0) with false by (symmetry; apply Z.ltb_ge; lia).
Qed.

End AcquireFacts.

(** ** The fetcher on the worked inputs *)

Example fetch_net2 :
  fetch_random_bytes_from_random_org net2 zero_memory 4 2 (1 # 2) [] =
  (inr [1; 2; 44; 255], rounds 2 2 (1 # 2)).
Proof. reflexivity. Qed.

Example fetch_net_short :
  fetch_random_bytes_from_random_org net_short zero_memory 100 25 (1 # 2) [] =
  (inl (RuntimeError "Unexpected count from Random.org: got 22 expected 25"),
   rounds 3 25 (1 # 2) ++ [Get RNG_URL (params 25) 15]).
Proof. vm_compute. reflexivity. Qed.

(** A size that is not a multiple of the chunk size is refused at once. *)
Lemma fetch_rejects (net : nat -> option Response) (uninit : nat -> Z)
  (n_bytes chunk_size : Z) (sleep_between : Q) (m : Z) (t : trace) :
  mod_ n_bytes chunk_size = inr m -> m <> 0 ->
  fetch_random_bytes_from_random_org net uninit n_bytes chunk_size
    sleep_between t = (inl (ValueError not_multiple_msg), t).
Proof.
  intros Hm Hne. unfold fetch_random_bytes_from_random_org, bind, lift.
  rewrite Hm. now replace (m =? 0) with false by (symmetry; now apply Z.eqb_neq).
Qed.

(** With the values it is shipped with, the script never asks the service:
    65536 is not a multiple of 10000, so [main] always takes the fallback. *)
Example acquire_shipped :
  forall net uninit prng,
    acquire net uninit prng shipped =
    (Data fallback_label (pseudorandom prng 65536), []).
Proof.
  intros. unfold shipped.
  apply (acquire_failed net uninit prng (256 * 256) 10000 (1 # 2) true
           (ValueError not_multiple_msg) []); [lia|].
  apply (fetch_rejects _ _ _ _ _ 5536); [reflexivity|lia].
Qed.

(** ** The fetcher with its checks *)

Lemma parses_to_functional (r : Response) (v w : list Z) :
  parses_to r v -> parses_to r w -> v = w.
Proof. intros (_ & _ & Hv) (_ & _ & Hw). congruence. Qed.

Lemma casts_byte (to_uint8 : Z -> result Z) (v : Z) :
  (forall b, 0 <= b <= 255 -> to_uint8 b = inr b) ->
  0 <= v <= 255 -> casts to_uint8 v.
Proof.
  intros H Hv. unfold casts, Np.uint8. rewrite Z.mod_small by lia. now apply H.
Qed.

Lemma casts_numpy1 (v : Z) : - 2 ^ 63 <= v < 2 ^ 63 -> casts Np.uint8_numpy1 v.
Proof.
  intros Hv. unfold casts, Np.uint8_numpy1.
  destruct (Z.leb_spec (- 2 ^ 63) v); [|lia].
  destruct (Z.ltb_spec v (2 ^ 63)); [reflexivity|lia].
Qed.

Lemma casts_numpy2 (v : Z) : 0 <= v <= 255 -> casts Np.uint8_numpy2 v.
Proof.
  intros Hv. apply casts_byte; [|exact Hv].
  intros b Hb. unfold Np.uint8_numpy2.
  destruct (Z.leb_spec 0 b); [|lia].
  destruct (Z.leb_spec b 255); [reflexivity|lia].
Qed.

(** A returning round issues exactly one request. *)
Lemma chunk_returns_gets (net : nat -> option Response) (chunk_size : Z)
  (sleep_between : Q) (st st' : list Z * Z) (t t' : trace) :
  chunk net chunk_size sleep_between st t = (inr st', t') ->
  gets t' = S (gets t).
Proof.
  destruct st as [out written].
  unfold chunk, bind, requests_get, lift, raise, time_sleep, ret.
  destruct (net (gets t)) as [r|]; [|discriminate].
  destruct (raise_for_status r) as [e|[]]; [discriminate|].
  destruct (startswith (strip (text r)) "Error:"); [discriminate|].
  destruct (ints (split (strip (text r)))) as [e|vals]; [discriminate|].
  destruct (negb (len vals =? chunk_size)); [discriminate|].
  destruct (Np.setslice _ _ _ _) as [e|out']; [discriminate|].
  intros [= _ <-]. rewrite !gets_app. cbn. lia.
Qed.

Section StrictFacts.

Variable net : nat -> option Response.
Variable to_uint8 : Z -> result Z.
Variable longest_sleep : Q.
Variables (chunk_size : Z) (sleep_between : Q).

(** Integers that are all cast make the array of their low bits. *)
Lemma strict_array_casts (vals : list Z) :
  Forall (casts to_uint8) vals ->
  Strict.array_uint8 to_uint8 vals = inr (Np.array_uint8 vals).
Proof.
  induction 1 as [|v vals Hv _ IH]; [reflexivity|].
  cbn [Strict.array_uint8]. rewrite Hv, IH. reflexivity.
Qed.

(** A pause that the clock takes is slept. *)
Lemma strict_sleep_taken :
  takes_pause longest_sleep sleep_between ->
  Strict.time_sleep longest_sleep sleep_between = time_sleep sleep_between.
Proof.
  intros [H0 Hmax]. unfold Strict.time_sleep.
  replace (Qle_bool (Qabs sleep_between) longest_sleep) with true.
  - replace (Qle_bool 0 sleep_between) with true; [reflexivity|].
    symmetry. now apply Qle_bool_iff.
  - symmetry. apply Qle_bool_iff. now rewrite Qabs_pos.
Qed.

(** A round whose integers are cast and whose pause is taken is the
    round without the checks. *)
Lemma strict_chunk_agrees (st : list Z * Z) (t : trace) :
  takes_pause longest_sleep sleep_between ->
  (forall r vals, net (gets t) = Some r -> parses_to r vals ->
                  Forall (casts to_uint8) vals) ->
  Strict.chunk net to_uint8 longest_sleep chunk_size sleep_between st t =
  chunk net chunk_size sleep_between st t.
Proof.
  intros Hpause Hcast. destruct st as [out written].
  unfold Strict.chunk, chunk. rewrite (strict_sleep_taken Hpause).
  unfold bind, requests_get, lift, raise.
  destruct (net (gets t)) as [r|] eqn:Hnet; [|reflexivity].
  destruct (raise_for_status r) as [e|[]] eqn:Hst; [reflexivity|].
  destruct (startswith (strip (text r)) "Error:") eqn:Hmark; [reflexivity|].
  destruct (ints (split (strip (text r)))) as [e|vals] eqn:Hints;
    [reflexivity|].
  destruct (negb (len vals =? chunk_size)); [reflexivity|].
  rewrite (strict_array_casts vals); [reflexivity|].
  apply (Hcast r vals eq_refl). unfold parses_to. auto.
Qed.

(** A round that reaches an integer the conversion refuses raises what
    the conversion raises, right after its request. *)
Lemma strict_chunk_refused (st : list Z * Z) (t : trace)
  (r : Response) (vals : list Z) (e : exn) :
  net (gets t) = Some r ->
  parses_to r vals ->
  len vals = chunk_size ->
  Strict.array_uint8 to_uint8 vals = inl e ->
  Strict.chunk net to_uint8 longest_sleep chunk_size sleep_between st t =
  (inl e, t ++ [request chunk_size]).
Proof.
  intros Hnet (Hst & Hmark & Hints) Hlen Hrefused. destruct st as [out written].
  unfold Strict.chunk, bind, requests_get, lift, raise.
  rewrite Hnet, Hst, Hmark, Hints.
  replace (len vals =? chunk_size) with true
    by (symmetry; apply Z.eqb_eq; exact Hlen).
  cbn [negb]. now rewrite Hrefused.
Qed.

Lemma strict_loop_agrees (k : nat) :
  forall (st : list Z * Z) (t : trace),
    takes_pause longest_sleep sleep_between ->
    (forall j, (j < k)%nat ->
       forall r vals, net (gets t + j)%nat = Some r -> parses_to r vals ->
                      Forall (casts to_uint8) vals) ->
    for_range k
      (Strict.chunk net to_uint8 longest_sleep chunk_size sleep_between) st t =
    for_range k (chunk net chunk_size sleep_between) st t.
Proof.
  induction k as [|k IH]; intros st t Hpause Hcast; [reflexivity|].
  cbn [for_range]. unfold bind.
  rewrite strict_chunk_agrees.
  - destruct (chunk net chunk_size sleep_between st t) as [[e|st'] t'] eqn:E;
      [reflexivity|].
    apply IH; [exact Hpause|].
    intros j Hj. rewrite (chunk_returns_gets _ _ _ _ _ _ _ E).
    replace (S (gets t) + j)%nat with (gets t + S j)%nat by lia.
    apply Hcast. lia.
  - exact Hpause.
  - specialize (Hcast 0%nat ltac:(lia)). now rewrite Nat.add_0_r in Hcast.
Qed.

Hypothesis chunk_size_pos : 0 < chunk_size.

(** Answers that are cast up to chunk [i], then an integer of chunk [i]
    is refused: the loop raises there. *)
Lemma strict_loop_refused (vals : nat -> list Z) (e : exn) (i : nat) :
  forall (k : nat) (out : list Z) (written : Z) (t : trace),
    takes_pause longest_sleep sleep_between ->
    (i < k)%nat ->
    0 <= written ->
    written + Z.of_nat k * chunk_size <= len out ->
    (forall j, (j <= i)%nat ->
       exists r, net (gets t + j)%nat = Some r /\
                 parses_to r (vals (gets t + j)%nat) /\
                 len (vals (gets t + j)%nat) = chunk_size) ->
    (forall j, (j < i)%nat ->
       Forall (casts to_uint8) (vals (gets t + j)%nat)) ->
    Strict.array_uint8 to_uint8 (vals (gets t + i)%nat) = inl e ->
    for_range k
      (Strict.chunk net to_uint8 longest_sleep chunk_size sleep_between)
      (out, written) t =
    (inl e, t ++ rounds i chunk_size sleep_between ++ [request chunk_size]).
Proof.
  induction i as [|i IH];
    intros k out written t Hpause Hik Hw Hfit Hgood Hcast Hrefused.
  - destruct k as [|k]; [lia|]. cbn [for_range]. unfold bind.
    destruct (Hgood 0%nat ltac:(lia)) as (r & Hr & Hp & Hl).
    rewrite Nat.add_0_r in Hr, Hp, Hl, Hrefused.
    now rewrite (strict_chunk_refused (out, written) t r _ e Hr Hp Hl Hrefused).
  - destruct k as [|k]; [lia|].
    destruct (Hgood 0%nat ltac:(lia)) as (r & Hr & Hp & Hl).
    pose proof (Hcast 0%nat ltac:(lia)) as Hc0.
    rewrite Nat.add_0_r in Hr, Hp, Hl, Hc0.
    cbn [for_range]. unfold bind at 1.
    rewrite strict_chunk_agrees;
      [ | exact Hpause
        | intros r' vals' Hr' Hp'; rewrite Hr in Hr'; injection Hr' as <-;
          now rewrite (parses_to_functional r vals' _ Hp' Hp) ].
    rewrite (chunk_good net chunk_size sleep_between chunk_size_pos
               out written t r (vals (gets t))) by (assumption || lia).
    assert (Hg : gets (t ++ round chunk_size sleep_between) = S (gets t)).
    { rewrite gets_app. cbn. lia. }
    rewrite IH; [ | exact Hpause | lia | lia | | | | ].
    + rewrite rounds_S, <- !app_assoc. reflexivity.
    + unfold len in *.
      rewrite !length_app, length_skipn, length_firstn.
      unfold Np.array_uint8. rewrite length_map. lia.
    + intros j Hj. rewrite Hg.
      replace (S (gets t) + j)%nat with (gets t + S j)%nat by lia.
      apply Hgood. lia.
    + intros j Hj. rewrite Hg.
      replace (S (gets t) + j)%nat with (gets t + S j)%nat by lia.
      apply Hcast. lia.
    + rewrite Hg.
      now replace (S (gets t) + i)%nat with (gets t + S i)%nat by lia.
Qed.

Variable uninit : nat -> Z.
Variable n_bytes : Z.

Lemma strict_fetch_enters_loop (t : trace) :
  0 <= n_bytes -> mod_ n_bytes chunk_size = inr 0 ->
  Strict.fetch_random_bytes_from_random_org net uninit to_uint8 longest_sleep
    n_bytes chunk_size sleep_between t =
  match for_range (chunks n_bytes chunk_size)
          (Strict.chunk net to_uint8 longest_sleep chunk_size sleep_between)
          (map (fun i => Np.uint8 (uninit i)) (seq 0 (Z.to_nat n_bytes)), 0) t
  with
  | (inl e, t') => (inl e, t')
  | (inr st, t') => (inr (fst st), t')
  end.
Proof.
  intros Hn Hm. unfold Strict.fetch_random_bytes_from_random_org.
  unfold bind at 1. unfold lift at 1. rewrite Hm. cbn [Z.eqb negb].
  unfold bind at 1. unfold lift at 1. unfold Np.empty.
  replace (n_bytes <? 0) with false by (symmetry; apply Z.ltb_ge; lia).
  unfold bind at 1. unfold lift at 1. unfold floordiv.
  replace (chunk_size =? 0) with false by (symmetry; apply Z.eqb_neq; lia).
  unfold bind, ret, chunks.
  destruct (for_range _ _ _ t) as [[e|st] t']; reflexivity.
Qed.

(** When every integer of every answer is cast and the pause is taken,
    the fetcher with the checks does what the one without does. *)
Lemma strict_fetch_agrees :
  0 <= n_bytes -> mod_ n_bytes chunk_size = inr 0 ->
  takes_pause longest_sleep sleep_between ->
  (forall j, (j < chunks n_bytes chunk_size)%nat ->
     forall r vals, net j = Some r -> parses_to r vals ->
                    Forall (casts to_uint8) vals) ->
  Strict.fetch_random_bytes_from_random_org net uninit to_uint8 longest_sleep
    n_bytes chunk_size sleep_between [] =
  fetch_random_bytes_from_random_org net uninit n_bytes chunk_size
    sleep_between [].
Proof.
  intros Hn Hm Hpause Hcast.
  rewrite strict_fetch_enters_loop, fetch_enters_loop by assumption.
  now rewrite strict_loop_agrees.
Qed.

(** Chunk [i] holds an integer that the conversion refuses, and the
    integers of the chunks before it are cast: the fetcher raises what the
    conversion raises, right after request [i]. *)
Lemma strict_fetch_refused (vals : nat -> list Z) (e : exn) (i : nat) :
  mod_ n_bytes chunk_size = inr 0 ->
  takes_pause longest_sleep sleep_between ->
  (i < chunks n_bytes chunk_size)%nat ->
  (forall j, (j <= i)%nat ->
     exists r, net j = Some r /\ parses_to r (vals j) /\
               len (vals j) = chunk_size) ->
  (forall j, (j < i)%nat -> Forall (casts to_uint8) (vals j)) ->
  Strict.array_uint8 to_uint8 (vals i) = inl e ->
  Strict.fetch_random_bytes_from_random_org net uninit to_uint8 longest_sleep
    n_bytes chunk_size sleep_between [] =
  (inl e, rounds i chunk_size sleep_between ++ [request chunk_size]).
Proof.
  intros Hm Hpause Hi Hgood Hcast Hrefused.
  assert (Hn : 0 <= n_bytes).
  { unfold chunks in Hi. destruct (Z_lt_le_dec n_bytes 0); [|assumption].
    pose proof (Z.div_lt_upper_bound n_bytes chunk_size 0 chunk_size_pos
                  ltac:(lia)). lia. }
  destruct (exact_division n_bytes chunk_size chunk_size_pos Hm) as [Hk|]; [|lia].
  rewrite strict_fetch_enters_loop by assumption.
  rewrite (strict_loop_refused vals e i); auto.
  - lia.
  - unfold len. rewrite length_map, length_seq. lia.
Qed.

End StrictFacts.

(** ** The fetcher on answers that are cast *)

Lemma len_sent (vals : nat -> list Z) (c : Z) (k : nat) :
  (forall j, (j < k)%nat -> len (vals j) = c) ->
  len (concat (map vals (seq 0 k))) = Z.of_nat k * c.
Proof.
  intros H. rewrite <- (length_stored c vals 0 k) by exact H.
  rewrite stored_concat. unfold len. now rewrite length_map.
Qed.

(** Every chunk well-formed, of the right size and made of integers that
    the conversion casts, and a pause that the clock takes: the fetcher
    with the checks returns the low eight bits of the answers, in order,
    after one request and one pause each. *)
Lemma strict_fetch_good (net : nat -> option Response) (uninit : nat -> Z)
  (to_uint8 : Z -> result Z) (longest_sleep : Q)
  (n_bytes chunk_size : Z) (sleep_between : Q) (vals : nat -> list Z) :
  0 < chunk_size -> 0 <= n_bytes -> mod_ n_bytes chunk_size = inr 0 ->
  takes_pause longest_sleep sleep_between ->
  (forall j, (j < chunks n_bytes chunk_size)%nat ->
     exists r, net j = Some r /\ parses_to r (vals j) /\
               len (vals j) = chunk_size) ->
  (forall j, (j < chunks n_bytes chunk_size)%nat ->
     Forall (casts to_uint8) (vals j)) ->
  Strict.fetch_random_bytes_from_random_org net uninit to_uint8 longest_sleep
    n_bytes chunk_size sleep_between [] =
  (inr (map Np.uint8
          (concat (map vals (seq 0 (chunks n_bytes chunk_size))))),
   rounds (chunks n_bytes chunk_size) chunk_size sleep_between).
Proof.
  intros Hc Hn Hm Hpause Hgood Hcast.
  rewrite strict_fetch_agrees; try assumption.
  - rewrite <- stored_concat. now apply fetch_good.
  - intros j Hj r vals' Hr Hp.
    destruct (Hgood j Hj) as (r0 & Hr0 & Hp0 & _).
    rewrite Hr in Hr0. injection Hr0 as <-.
    rewrite (parses_to_functional r vals' (vals j) Hp Hp0). now apply Hcast.
Qed.

Lemma strict_acquire_remote (net : nat -> option Response)
  (uninit prng : nat -> Z) (to_uint8 : Z -> result Z) (longest_sleep : Q)
  (n_bytes chunk_size : Z) (sleep_between : Q) (fallback : bool)
  (data : list Z) (t : trace) :
  Strict.fetch_random_bytes_from_random_org net uninit to_uint8 longest_sleep
    n_bytes chunk_size sleep_between [] = (inr data, t) ->
  Strict.acquire net uninit to_uint8 longest_sleep prng
    {| N_BYTES := n_bytes; CHUNK_SIZE := chunk_size;
       SLEEP_BETWEEN_CALLS := sleep_between;
       USE_FALLBACK_IF_FAIL := fallback |} = (Data remote_label data, t).
Proof. unfold Strict.acquire. cbn. now intros ->. Qed.

(** * The chunked fetcher *)

(** C1, as amended.  For a chunk size [C > 0], a total [N >= 0] with
    [N % C == 0] and a pause that the clock takes (not negative, not too
    long), when each of the [N / C] requests is answered with a
    well-formed body of exactly [C] integers, each of them in [0, 255],
    the fetcher issues exactly [N / C] requests, one after the other (each
    followed by the pause), and returns a buffer of length [N] that is the
    concatenation of the answers in request order.  [main] labels this
    buffer with the remote source label.  This holds of every conversion
    to [uint8] that leaves the integers of [0, 255] as they are, which
    every release of NumPy does. *)
Theorem fetch_concatenates_chunks
  (net : nat -> option Response) (uninit prng : nat -> Z)
  (to_uint8 : Z -> result Z) (longest_sleep : Q)
  (n_bytes chunk_size : Z) (sleep_between : Q) (fallback : bool)
  (vals : nat -> list Z) :
  0 < chunk_size -> 0 <= n_bytes -> mod_ n_bytes chunk_size = inr 0 ->
  takes_pause longest_sleep sleep_between ->
  (forall v, 0 <= v <= 255 -> to_uint8 v = inr v) ->
  (forall j, (j < chunks n_bytes chunk_size)%nat ->
     exists r, net j = Some r /\ parses_to r (vals j) /\
               len (vals j) = chunk_size /\ bytes (vals j)) ->
  let k := chunks n_bytes chunk_size in
  let sent := concat (map vals (seq 0 k)) in
  let t := rounds k chunk_size sleep_between in
  Strict.fetch_random_bytes_from_random_org net uninit to_uint8 longest_sleep
    n_bytes chunk_size sleep_between [] = (inr sent, t)
  /\ gets t = k
  /\ Z.of_nat k = n_bytes / chunk_size
  /\ len sent = n_bytes
  /\ Strict.acquire net uninit to_uint8 longest_sleep prng
       {| N_BYTES := n_bytes; CHUNK_SIZE := chunk_size;
          SLEEP_BETWEEN_CALLS := sleep_between;
          USE_FALLBACK_IF_FAIL := fallback |} = (Data remote_label sent, t).
Proof.
  intros Hc Hn Hm Hpause Hbyte Hgood k sent t.
  assert (Hsent : bytes sent).
  { subst sent. apply bytes_concat. intros l Hl.
    apply in_map_iff in Hl as (j & <- & Hj). apply in_seq in Hj.
    destruct (Hgood j ltac:(lia)) as (r & _ & _ & _ & Hb). exact Hb. }
  assert (Hfetch : Strict.fetch_random_bytes_from_random_org net uninit
                     to_uint8 longest_sleep n_bytes chunk_size sleep_between []
                   = (inr sent, t)).
  { rewrite <- (uint8_id sent Hsent). subst sent t k.
    apply strict_fetch_good; try assumption.
    - intros j Hj. destruct (Hgood j Hj) as (r & Hr & Hp & Hl & _). eauto.
    - intros j Hj. destruct (Hgood j Hj) as (r & _ & _ & _ & Hb).
      unfold bytes in Hb. apply Forall_impl with (2 := Hb).
      intros v Hv. now apply casts_byte. }
  split; [exact Hfetch|].
  split; [apply gets_rounds|].
  split. { subst k. unfold chunks. pose proof (Z.div_pos n_bytes chunk_size). lia. }
  split.
  { subst sent. rewrite (len_sent vals chunk_size k).
    - destruct (exact_division n_bytes chunk_size Hc Hm); [assumption|lia].
    - intros j Hj. destruct (Hgood j Hj) as (r & _ & _ & Hl & _). exact Hl. }
  now apply strict_acquire_remote.
Qed.

Lemma fetch_concatenates_chunks_witness :
  Strict.fetch_random_bytes_from_random_org net_bytes zero_memory
    Np.uint8_numpy2 (10 # 1) 4 2 (1 # 2) [] =
  (inr [7; 0; 255; 16], rounds 2 2 (1 # 2)).
Proof.
  refine (proj1 (fetch_concatenates_chunks net_bytes zero_memory zero_memory
                   Np.uint8_numpy2 (10 # 1) 4 2 (1 # 2) true vals_bytes
                   _ _ _ _ _ _)).
  - reflexivity.
  - discriminate.
  - reflexivity.
  - unfold takes_pause, Qle. cbn. lia.
  - intros v Hv. unfold Np.uint8_numpy2.
    destruct (Z.leb_spec 0 v); [|lia].
    destruct (Z.leb_spec v 255); [reflexivity|lia].
  - intros [|[|j]] Hj.
    + eexists. repeat split; try reflexivity. repeat constructor; lia.
    + eexists. repeat split; try reflexivity. repeat constructor; lia.
    + exfalso. change (chunks 4 2) with 2%nat in Hj. lia.
Defined.

(** C1 as it is worded fails on an answer outside 0..255: the request
    succeeds and parses to exactly one integer, 300, yet no buffer that
    holds the answer comes back.  With the conversion of NumPy 1.x the
    buffer holds 44, with that of NumPy 2 the fetcher raises. *)
Lemma fetch_does_not_keep_300 :
  let net := answers [ok "300"] in
  mod_ 1 1 = inr 0
  /\ takes_pause (10 # 1) (1 # 2)
  /\ (exists r, net 0%nat = Some r /\ parses_to r [300] /\ len [300] = 1)
  /\ Strict.fetch_random_bytes_from_random_org net zero_memory
       Np.uint8_numpy1 (10 # 1) 1 1 (1 # 2) [] =
     (inr [44], rounds 1 1 (1 # 2))
  /\ Strict.fetch_random_bytes_from_random_org net zero_memory
       Np.uint8_numpy2 (10 # 1) 1 1 (1 # 2) [] =
     (inl OverflowError, [request 1])
  /\ [44] <> concat [[300]].
Proof.
  cbv zeta. split; [reflexivity|].
  split; [unfold takes_pause, Qle; cbn; lia|]. split.
  - eexists. repeat split; reflexivity.
  - split; [reflexivity|]. split; [reflexivity|]. discriminate.
Qed.

(** C4.  When [N % C] is defined and not zero, the fetcher raises
    [ValueError] (the configuration error) and the trace of effects is
    left as it was: no request is issued. *)
Theorem fetch_rejects_non_multiple
  (net : nat -> option Response) (uninit : nat -> Z)
  (n_bytes chunk_size : Z) (sleep_between : Q) (m : Z) (t : trace) :
  mod_ n_bytes chunk_size = inr m -> m <> 0 ->
  fetch_random_bytes_from_random_org net uninit n_bytes chunk_size
    sleep_between t = (inl (ValueError not_multiple_msg), t)
  /\ gets (snd (fetch_random_bytes_from_random_org net uninit n_bytes
                  chunk_size sleep_between [])) = 0%nat.
Proof.
  intros Hm Hne. split.
  - now apply (fetch_rejects net uninit n_bytes chunk_size sleep_between m).
  - now rewrite (fetch_rejects net uninit n_bytes chunk_size sleep_between m).
Qed.

Lemma fetch_rejects_non_multiple_witness :
  fetch_random_bytes_from_random_org net2 zero_memory 65536 10000 (1 # 2) []
  = (inl (ValueError not_multiple_msg), []).
Proof.
  refine (proj1 (fetch_rejects_non_multiple net2 zero_memory 65536 10000
                   (1 # 2) 5536 [] _ _)).
  - reflexivity.
  - discriminate.
Defined.






(** C10, as amended.  The fetcher has no check of its own on the range
    of the integers; what becomes of an integer outside [0, 255] is
    decided by the conversion of NumPy.  Under the hypotheses of C1 and
    with no condition on the range: when the conversion casts every
    integer that was sent, the fetcher returns a buffer in which each
    element is the integer that was sent reduced modulo 256, so every
    element is a byte whatever was sent; when the conversion refuses an
    integer, the fetcher raises what the conversion raises, right after
    the request of that chunk, and returns no buffer.  NumPy 1.x casts
    every integer that fits a C long, NumPy 2 the integers of [0, 255]
    only. *)
Theorem fetch_stores_modulo_256
  (net : nat -> option Response) (uninit : nat -> Z)
  (to_uint8 : Z -> result Z) (longest_sleep : Q)
  (n_bytes chunk_size : Z) (sleep_between : Q) (vals : nat -> list Z) :
  0 < chunk_size -> 0 <= n_bytes -> mod_ n_bytes chunk_size = inr 0 ->
  takes_pause longest_sleep sleep_between ->
  (forall j, (j < chunks n_bytes chunk_size)%nat ->
     exists r, net j = Some r /\ parses_to r (vals j) /\
               len (vals j) = chunk_size) ->
  let k := chunks n_bytes chunk_size in
  let sent := concat (map vals (seq 0 k)) in
  (Forall (casts to_uint8) sent ->
   exists buffer,
     Strict.fetch_random_bytes_from_random_org net uninit to_uint8
       longest_sleep n_bytes chunk_size sleep_between [] =
     (inr buffer, rounds k chunk_size sleep_between)
     /\ bytes buffer
     /\ length buffer = length sent
     /\ forall p, (p < length sent)%nat ->
          nth p buffer 0 = nth p sent 0 mod 256)
  /\ (forall i e,
        (i < k)%nat ->
        (forall j, (j < i)%nat -> Forall (casts to_uint8) (vals j)) ->
        Strict.array_uint8 to_uint8 (vals i) = inl e ->
        Strict.fetch_random_bytes_from_random_org net uninit to_uint8
          longest_sleep n_bytes chunk_size sleep_between [] =
        (inl e, rounds i chunk_size sleep_between ++ [request chunk_size]))
  /\ (forall v, - 2 ^ 63 <= v < 2 ^ 63 -> casts Np.uint8_numpy1 v)
  /\ (forall v, 0 <= v <= 255 -> casts Np.uint8_numpy2 v).
Proof.
  intros Hc Hn Hm Hpause Hgood k sent.
  split; [|split; [|split; [exact casts_numpy1|exact casts_numpy2]]].
  - intros Hcast. exists (map Np.uint8 sent). split.
    + subst sent k. apply strict_fetch_good; try assumption.
      intros j Hj. apply Forall_concat in Hcast.
      rewrite Forall_forall in Hcast. apply Hcast.
      apply in_map, in_seq. lia.
    + split; [apply uint8_bytes|]. split; [apply length_map|].
      intros p Hp.
      rewrite nth_indep with (d' := Np.uint8 0)
        by (rewrite length_map; exact Hp).
      now rewrite map_nth.
  - intros i e Hi Hcast Hrefused.
    apply (strict_fetch_refused net to_uint8 longest_sleep chunk_size
             sleep_between Hc uninit n_bytes vals e i); try assumption.
    intros j Hj. apply Hgood. subst k. lia.
Qed.

Lemma fetch_stores_modulo_256_witness :
  exists buffer,
    Strict.fetch_random_bytes_from_random_org net2 zero_memory
      Np.uint8_numpy1 (10 # 1) 4 2 (1 # 2) [] =
    (inr buffer, rounds 2 2 (1 # 2))
    /\ bytes buffer
    /\ length buffer = 4%nat
    /\ forall p, (p < 4)%nat ->
         nth p buffer 0 = nth p [1; 2; 300; -1] 0 mod 256.
Proof.
  refine (proj1 (fetch_stores_modulo_256 net2 zero_memory Np.uint8_numpy1
                   (10 # 1) 4 2 (1 # 2) vals2 _ _ _ _ _) _).
  - reflexivity.
  - discriminate.
  - reflexivity.
  - unfold takes_pause, Qle. cbn. lia.
  - intros [|[|j]] Hj.
    + eexists. repeat split; reflexivity.
    + eexists. repeat split; reflexivity.
    + exfalso. change (chunks 4 2) with 2%nat in Hj. lia.
  - repeat constructor.
Defined.

(** C10 as it is worded fails on an integer that NumPy refuses: the
    request succeeds and parses to exactly one integer, 2^64, which is
    neither stored modulo 256 nor kept: with the conversion of NumPy 1.x
    and with that of NumPy 2 the fetcher raises [OverflowError]. *)
Lemma fetch_refuses_integer_beyond_c_long :
  let net := answers [ok "18446744073709551616"] in
  mod_ 1 1 = inr 0
  /\ takes_pause (10 # 1) (1 # 2)
  /\ (exists r, net 0%nat = Some r /\ parses_to r [2 ^ 64]
                /\ len [2 ^ 64] = 1)
  /\ ~ 0 <= 2 ^ 64 <= 255
  /\ Strict.fetch_random_bytes_from_random_org net zero_memory
       Np.uint8_numpy1 (10 # 1) 1 1 (1 # 2) [] =
     (inl OverflowError, [request 1])
  /\ Strict.fetch_random_bytes_from_random_org net zero_memory
       Np.uint8_numpy2 (10 # 1) 1 1 (1 # 2) [] =
     (inl OverflowError, [request 1]).
Proof.
  cbv zeta. split; [reflexivity|].
  split; [unfold takes_pause, Qle; cbn; lia|]. split.
  - eexists. repeat split; reflexivity.
  - split; [lia|]. split; reflexivity.
Qed.

(** * The statistics *)

(** ** The image *)

Lemma length_rows (r c : nat) (d : list Z) : length (Np.rows r c d) = r.
Proof. revert d. induction r; intros d; cbn; [reflexivity|now rewrite IHr]. Qed.

Lemma rows_nth (r c : nat) :
  forall (d : list Z) (i j : nat),
    (i < r)%nat -> (j < c)%nat ->
    nth j (nth i (Np.rows r c d) []) 0 = nth (i * c + j) d 0.
Proof.
  induction r as [|r IH]; intros d i j Hi Hj; [lia|].
  destruct i as [|i]; cbn [Np.rows nth].
  - rewrite nth_firstn. now replace (j <? c)%nat with true
      by (symmetry; now apply Nat.ltb_lt).
  - rewrite IH, nth_skipn by lia. f_equal. lia.
Qed.

Lemma rows_width (r c : nat) :
  forall d : list Z,
    length d = (r * c)%nat ->
    Forall (fun row => length row = c) (Np.rows r c d).
Proof.
  induction r as [|r IH]; intros d Hd; cbn [Np.rows]; constructor.
  - rewrite length_firstn. lia.
  - apply IH. rewrite length_skipn. lia.
Qed.

Lemma concat_rows (r c : nat) :
  forall d : list Z, length d = (r * c)%nat -> concat (Np.rows r c d) = d.
Proof.
  induction r as [|r IH]; intros d Hd; cbn [Np.rows concat].
  - destruct d; [reflexivity|discriminate].
  - rewrite IH by (rewrite length_skipn; lia). apply firstn_skipn.
Qed.

Lemma crop_eq (data : list Z) :
  crop data =
  (Z.sqrt (len data),
   firstn (Z.to_nat (Z.sqrt (len data) * Z.sqrt (len data))) data).
Proof.
  unfold crop, Np.isqrt.
  destruct (Z.eqb_spec (Z.sqrt (len data) * Z.sqrt (len data)) (len data)) as [H|H];
    cbn [negb]; [|reflexivity].
  rewrite H. unfold len. now rewrite Nat2Z.id, firstn_all.
Qed.

(** C6.  For a non-empty buffer the side is the largest integer whose
    square does not exceed the length, the image is made of the first
    [side * side] elements, and it is the [side] by [side] grid that holds
    them row by row.  Ten elements give a 3 by 3 grid without the last
    one; sixteen give a 4 by 4 grid of all of them. *)
Theorem reshape_to_grid (data : list Z) :
  data <> [] ->
  let s := side data in
  let kept := firstn (Z.to_nat (s * s)) data in
  let grid := Np.rows (Z.to_nat s) (Z.to_nat s) kept in
  0 < s /\ s * s <= len data
  /\ (forall s', s' * s' <= len data -> s' <= s)
  /\ crop data = (s, kept)
  /\ img data = inr grid
  /\ length grid = Z.to_nat s
  /\ Forall (fun row => len row = s) grid
  /\ concat grid = kept
  /\ (forall r c, 0 <= r < s -> 0 <= c < s ->
        nth (Z.to_nat c) (nth (Z.to_nat r) grid []) 0 =
        nth (Z.to_nat (r * s + c)) data 0)
  /\ (len data = 10 -> s = 3 /\ kept = removelast data)
  /\ (len data = 16 -> s = 4 /\ kept = data).
Proof.
  intros Hne s kept grid.
  assert (Hs : s = Z.sqrt (len data)).
  { subst s. unfold side. now rewrite crop_eq. }
  assert (Hlen : 0 < len data).
  { unfold len. destruct data; [congruence|cbn; lia]. }
  pose proof (Z.sqrt_spec (len data) ltac:(lia)) as Hspec. cbv zeta in Hspec.
  rewrite <- Hs in Hspec.
  pose proof (Z.sqrt_nonneg (len data)) as Hnn. rewrite <- Hs in Hnn.
  assert (Hpos : 0 < s) by nia.
  assert (Hcrop : crop data = (s, kept)).
  { subst kept. rewrite Hs. apply crop_eq. }
  assert (Hkept : length kept = (Z.to_nat s * Z.to_nat s)%nat).
  { subst kept. rewrite length_firstn. unfold len in *. nia. }
  split; [exact Hpos|]. split; [lia|]. split; [intros s' Hs'; nia|].
  split; [exact Hcrop|]. split.
  { unfold img. rewrite Hcrop. unfold Np.reshape.
    replace ((s <? 0) || (s <? 0)) with false
      by (symmetry; apply orb_false_iff; split; apply Z.ltb_ge; lia).
    replace (s * s =? len kept) with true; [reflexivity|].
    symmetry. apply Z.eqb_eq. unfold len. rewrite Hkept. lia. }
  split; [apply length_rows|]. split.
  { apply Forall_impl with (P := fun row => length row = Z.to_nat s).
    - intros row Hrow. unfold len. lia.
    - now apply rows_width. }
  split; [now apply concat_rows|]. split.
  { intros r c Hr Hc. subst grid. rewrite rows_nth by lia.
    subst kept. rewrite nth_firstn.
    replace (Z.to_nat r * Z.to_nat s + Z.to_nat c <? Z.to_nat (s * s))%nat
      with true by (symmetry; apply Nat.ltb_lt; nia).
    f_equal. nia. }
  split.
  - intros H10. assert (s = 3) as H3 by (rewrite Hs, H10; reflexivity).
    split; [exact H3|]. subst kept. rewrite H3.
    unfold len in H10.
    do 10 (destruct data as [|? data]; [cbn [length] in H10; lia|]).
    destruct data; [reflexivity|cbn [length] in H10; lia].
  - intros H16. assert (s = 4) as H4 by (rewrite Hs, H16; reflexivity).
    split; [exact H4|]. subst kept. rewrite H4.
    unfold len in H16.
    change (Z.to_nat (4 * 4)) with 16%nat.
    replace 16%nat with (length data) by lia. apply firstn_all.
Qed.

Lemma reshape_to_grid_witness :
  img [9; 8; 7; 6; 5; 4; 3; 2; 1; 0] = inr [[9; 8; 7]; [6; 5; 4]; [3; 2; 1]]
  /\ img (Np.arange 16) =
     inr [[0; 1; 2; 3]; [4; 5; 6; 7]; [8; 9; 10; 11]; [12; 13; 14; 15]].
Proof.
  split.
  - refine (proj1 (proj2 (proj2 (proj2 (proj2
      (reshape_to_grid [9; 8; 7; 6; 5; 4; 3; 2; 1; 0] _)))))). discriminate.
  - refine (proj1 (proj2 (proj2 (proj2 (proj2
      (reshape_to_grid (Np.arange 16) _)))))). discriminate.
Defined.

(** ** The histogram *)

Lemma count_ext_in (p q : Z -> bool) (data : list Z) :
  (forall v, In v data -> p v = q v) -> Np.count p data = Np.count q data.
Proof.
  unfold Np.count. intros H. f_equal. f_equal. induction data as [|v data IH].
  - reflexivity.
  - cbn [filter]. rewrite (H v) by now left.
    rewrite IH by (intros w Hw; apply H; now right). reflexivity.
Qed.

Lemma count_split (p q r : Z -> bool) (data : list Z) :
  (forall v, In v data ->
     Z.b2z (r v) = Z.b2z (p v) + Z.b2z (q v)) ->
  Np.count r data = Np.count p data + Np.count q data.
Proof.
  unfold Np.count. induction data as [|v data IH]; intros H; [reflexivity|].
  specialize (IH (fun w Hw => H w (or_intror Hw))).
  specialize (H v (or_introl eq_refl)). cbn [filter].
  destruct (r v), (p v), (q v); cbn [Z.b2z length] in *; lia.
Qed.

Lemma count_all (p : Z -> bool) (data : list Z) :
  (forall v, In v data -> p v = true) -> Np.count p data = len data.
Proof.
  unfold Np.count, len. intros H. f_equal. induction data as [|v data IH].
  - reflexivity.
  - cbn [filter]. rewrite (H v) by now left. cbn [length].
    rewrite IH by (intros w Hw; apply H; now right). reflexivity.
Qed.

Lemma count_eqb (data : list Z) (v : Z) :
  Np.count (Z.eqb v) data = Z.of_nat (count_occ Z.eq_dec data v).
Proof.
  unfold Np.count. f_equal. induction data as [|w data IH]; [reflexivity|].
  cbn [filter count_occ]. destruct (Z.eqb_spec v w) as [->|Hne].
  - destruct (Z.eq_dec w w); [|congruence]. cbn [length]. now rewrite IH.
  - destruct (Z.eq_dec w v); [congruence|]. exact IH.
Qed.

Lemma unit_edges_S (a m : nat) :
  unit_edges a (S m) = Z.of_nat a :: unit_edges (S a) m.
Proof. reflexivity. Qed.

Lemma histogram_unit_edges_S (data : list Z) (a m : nat) :
  Np.histogram data (unit_edges a (S m)) =
  Np.count (fun v => (Z.of_nat a <=? v) && (v <? Z.of_nat (S a))) data
    :: Np.histogram data (unit_edges (S a) m).
Proof. reflexivity. Qed.

Lemma histogram_unit_edges_0 (data : list Z) (a : nat) :
  Np.histogram data (unit_edges a 0) =
  [Np.count (fun v => (Z.of_nat a <=? v) && (v <=? Z.of_nat (S a))) data].
Proof. reflexivity. Qed.

Lemma length_histogram (data : list Z) (m : nat) :
  forall a, length (Np.histogram data (unit_edges a m)) = S m.
Proof.
  induction m as [|m IH]; intros a.
  - reflexivity.
  - rewrite histogram_unit_edges_S. cbn [length]. now rewrite IH.
Qed.

(** The bins together count the values between the outer edges. *)
Lemma histogram_total (data : list Z) (m : nat) :
  forall a,
    total (Np.histogram data (unit_edges a m)) =
    Np.count (fun v => (Z.of_nat a <=? v) && (v <=? Z.of_nat (a + m + 1))) data.
Proof.
  induction m as [|m IH]; intros a.
  - rewrite histogram_unit_edges_0. cbn [total fold_right].
    rewrite Z.add_0_r. apply count_ext_in. intros v _. do 2 f_equal. lia.
  - rewrite histogram_unit_edges_S. cbn [total fold_right].
    fold (total (Np.histogram data (unit_edges (S a) m))). rewrite IH.
    symmetry. apply count_split. intros v _.
    destruct (Z.leb_spec (Z.of_nat a) v), (Z.leb_spec v (Z.of_nat (a + S m + 1))),
      (Z.ltb_spec v (Z.of_nat (S a))), (Z.leb_spec (Z.of_nat (S a)) v),
      (Z.leb_spec v (Z.of_nat (S a + m + 1))); cbn; lia.
Qed.

(** Bin [i] counts the values of its unit interval. *)
Lemma histogram_nth (data : list Z) (m : nat) :
  forall a i,
    (i <= m)%nat ->
    nth i (Np.histogram data (unit_edges a m)) 0 =
    Np.count (fun v => (Z.of_nat (a + i) <=? v)
                       && (if (i =? m)%nat then v <=? Z.of_nat (a + i + 1)
                           else v <? Z.of_nat (a + i + 1))) data.
Proof.
  induction m as [|m IH]; intros a i Hi.
  - assert (i = 0)%nat as -> by lia. rewrite histogram_unit_edges_0.
    cbn [nth Nat.eqb]. apply count_ext_in. intros v _.
    now replace (a + 0 + 1)%nat with (S a) by lia; replace (a + 0)%nat with a by lia.
  - rewrite histogram_unit_edges_S. destruct i as [|i]; cbn [nth].
    + cbn [Nat.eqb]. apply count_ext_in. intros v _.
      now replace (a + 0 + 1)%nat with (S a) by lia; replace (a + 0)%nat with a by lia.
    + rewrite IH by lia. cbn [Nat.eqb]. apply count_ext_in. intros v _.
      now replace (S a + i)%nat with (a + S i)%nat by lia.
Qed.

(** C7.  Over a buffer of bytes the histogram has 256 counts, they add up
    to the length of the buffer, and the count at [v] is the number of
    occurrences of [v].  For a hundred copies of 5 the count at 5 is 100
    and every other count is 0. *)
Theorem histogram_counts_sum (data : list Z) :
  bytes data ->
  length (hist_counts data) = 256%nat
  /\ total (hist_counts data) = len data
  /\ (forall v, 0 <= v <= 255 ->
        nth (Z.to_nat v) (hist_counts data) 0 =
        Z.of_nat (count_occ Z.eq_dec data v))
  /\ hist_counts (repeat 5 100) = repeat 0 5 ++ [100] ++ repeat 0 250.
Proof.
  intros Hb. unfold bytes in Hb. rewrite Forall_forall in Hb.
  change (hist_counts data) with (Np.histogram data (unit_edges 0 255)).
  split; [apply length_histogram|]. split.
  - rewrite histogram_total. apply count_all. intros v Hv.
    specialize (Hb v Hv). apply andb_true_iff.
    split; apply Z.leb_le; cbn; lia.
  - split; [|vm_compute; reflexivity].
    intros v Hv. rewrite histogram_nth by lia. rewrite <- count_eqb.
    apply count_ext_in. intros w Hw. specialize (Hb w Hw).
    cbn [Nat.add]. rewrite !Nat2Z.inj_add, Z2Nat.id by lia.
    destruct (Z.eqb_spec v w) as [->|Hne].
    + destruct (Z.to_nat w =? 255)%nat; apply andb_true_iff; split;
        try apply Z.leb_le; try apply Z.ltb_lt; lia.
    + apply andb_false_iff.
      destruct (Nat.eqb_spec (Z.to_nat v) 255) as [Hv255|Hv255].
      * destruct (Z_lt_le_dec w v); [left; apply Z.leb_gt; lia|].
        right. apply Z.leb_gt. lia.
      * destruct (Z_lt_le_dec w v); [left; apply Z.leb_gt; lia|].
        right. apply Z.ltb_ge. lia.
Qed.

Lemma histogram_counts_sum_witness :
  total (hist_counts [3; 250; 3; 0; 255; 3]) = 6
  /\ nth 3 (hist_counts [3; 250; 3; 0; 255; 3]) 0 = 3.
Proof.
  assert (H : bytes [3; 250; 3; 0; 255; 3]).
  { unfold bytes. repeat constructor; discriminate. }
  split.
  - exact (proj1 (proj2 (histogram_counts_sum [3; 250; 3; 0; 255; 3] H))).
  - refine (proj1 (proj2 (proj2 (histogram_counts_sum [3; 250; 3; 0; 255; 3] H)))
              3 _). lia.
Defined.

(** ** Sums of rationals *)

Lemma fold_left_Qplus (l : list Q) :
  forall acc : Q, (fold_left Qplus l acc == acc + Qsum l)%Q.
Proof.
  induction l as [|v l IH]; intros acc; cbn [fold_left Qsum fold_right].
  - ring.
  - rewrite IH. fold (Qsum l). ring.
Qed.

Lemma sum_Qsum (l : list Q) : (Np.sum l == Qsum l)%Q.
Proof. unfold Np.sum. rewrite fold_left_Qplus. ring. Qed.

Lemma Qsum_ext (l l' : list Q) : Forall2 Qeq l l' -> (Qsum l == Qsum l')%Q.
Proof.
  induction 1 as [|v v' l l' Hv _ IH]; cbn [Qsum fold_right]; [reflexivity|].
  fold (Qsum l) (Qsum l'). now rewrite Hv, IH.
Qed.

Lemma Qsum_inject (l : list Z) :
  (Qsum (map inject_Z l) == inject_Z (total l))%Q.
Proof.
  induction l as [|v l IH]; cbn [map Qsum fold_right total]; [reflexivity|].
  fold (Qsum (map inject_Z l)) (total l). now rewrite IH, inject_Z_plus.
Qed.

Lemma inject_Z_nonzero (z : Z) : z <> 0 -> ~ (inject_Z z == 0)%Q.
Proof. intros Hz H. apply Hz. now apply (inject_Z_injective z 0). Qed.

Lemma len_positive {A : Type} (l : list A) : l <> [] -> 0 < len l.
Proof. unfold len. destruct l; [congruence|cbn; lia]. Qed.

(** The mean of an integer array is the sum of its elements over its length. *)
Lemma mean_inject (l : list Z) :
  (Np.mean (Np.astype_float l) == inject_Z (total l) / inject_Z (len l))%Q.
Proof.
  unfold Np.mean, Np.astype_float, len.
  now rewrite sum_Qsum, Qsum_inject, length_map.
Qed.

(** ** The bit balance *)

Lemma bit_testbit (p v : Z) : 0 <= p -> bit p v = Z.b2z (Z.testbit v p).
Proof.
  intros Hp. unfold bit.
  rewrite Z.testbit_spec', Z.shiftr_div_pow2 by assumption.
  change 1 with (Z.ones 1). now rewrite Z.land_ones by lia.
Qed.

Lemma total_bits (p : Z) (data : list Z) :
  0 <= p ->
  total (map (bit p) data) = Np.count (fun v => Z.testbit v p) data.
Proof.
  intros Hp. unfold Np.count.
  induction data as [|v data IH]; cbn [map total fold_right filter]; [reflexivity|].
  fold (total (map (bit p) data)). rewrite IH, bit_testbit by assumption.
  destruct (Z.testbit v p); cbn [Z.b2z length]; lia.
Qed.

Lemma ones_ratio_eq (data : list Z) :
  ones_ratio data =
  map (fun p => Np.mean (Np.astype_float (map (bit p) data)))
    [0; 1; 2; 3; 4; 5; 6; 7].
Proof. reflexivity. Qed.

Lemma ones_ratio_fraction (data : list Z) (p : Z) :
  0 <= p ->
  (Np.mean (Np.astype_float (map (bit p) data)) ==
   inject_Z (Np.count (fun v => Z.testbit v p) data) / inject_Z (len data))%Q.
Proof.
  intros Hp. rewrite mean_inject, total_bits by assumption.
  unfold len. now rewrite length_map.
Qed.

(** No element has the bit: the fraction is zero. *)
Lemma fraction_clear (data : list Z) (p : Z) :
  0 <= p -> (forall v, In v data -> Z.testbit v p = false) ->
  (Np.mean (Np.astype_float (map (bit p) data)) == 0)%Q.
Proof.
  intros Hp Hclear. rewrite ones_ratio_fraction by assumption.
  rewrite count_ext_in with (q := fun _ => false) by exact Hclear.
  replace (Np.count (fun _ => false) data) with 0.
  - unfold Qdiv. apply Qmult_0_l.
  - unfold Np.count. clear. induction data; [reflexivity|assumption].
Qed.

(** Every element has the bit, and there is one: the fraction is one. *)
Lemma fraction_set (data : list Z) (p : Z) :
  0 <= p -> data <> [] -> (forall v, In v data -> Z.testbit v p = true) ->
  (Np.mean (Np.astype_float (map (bit p) data)) == 1)%Q.
Proof.
  intros Hp Hne Hset. rewrite ones_ratio_fraction by assumption.
  rewrite count_all by exact Hset.
  unfold Qdiv. apply Qmult_inv_r, inject_Z_nonzero.
  pose proof (len_positive data Hne). lia.
Qed.

(** C8.  For a non-empty buffer the bit balance has eight fractions; the
    one at position [p], counted from the least significant bit, is the
    mean of [(byte >> p) & 1] over the buffer, that is the number of
    elements with bit [p] set over the length.  A buffer of zeros gives
    eight zeros, a buffer of 255s gives eight ones. *)
Theorem bit_balance_fractions (data : list Z) :
  data <> [] ->
  length (ones_ratio data) = 8%nat
  /\ (forall p, 0 <= p < 8 ->
        nth (Z.to_nat p) (ones_ratio data) 0%Q =
        Np.mean (Np.astype_float (map (fun byte => Z.land (Z.shiftr byte p) 1) data))
        /\ (nth (Z.to_nat p) (ones_ratio data) 0
            == inject_Z (Np.count (fun v => Z.testbit v p) data)
               / inject_Z (len data))%Q)
  /\ (Forall (eq 0) data -> Forall (fun f => (f == 0)%Q) (ones_ratio data))
  /\ (Forall (eq 255) data -> Forall (fun f => (f == 1)%Q) (ones_ratio data)).
Proof.
  intros Hne. pose proof (len_positive data Hne) as Hlen.
  split; [reflexivity|]. split.
  - intros p Hp.
    assert (Hnth : nth (Z.to_nat p) (ones_ratio data) 0%Q =
                   Np.mean (Np.astype_float (map (bit p) data))).
    { assert (p = 0 \/ p = 1 \/ p = 2 \/ p = 3 \/ p = 4 \/ p = 5 \/ p = 6 \/ p = 7)
        as Hcase by lia.
      rewrite ones_ratio_eq.
      destruct Hcase as [->|[->|[->|[->|[->|[->|[->| ->]]]]]]]; reflexivity. }
    split; [exact Hnth|]. rewrite Hnth. apply ones_ratio_fraction. lia.
  - split; intros Hall; rewrite Forall_forall in Hall;
      rewrite ones_ratio_eq; apply Forall_map; repeat constructor.
    all: try (apply fraction_clear; [lia|]; intros v Hv;
              now rewrite <- (Hall v Hv)).
    all: apply fraction_set; [lia|assumption|]; intros v Hv;
         now rewrite <- (Hall v Hv).
Qed.

Lemma bit_balance_fractions_witness :
  Forall (fun f => (f == 1)%Q) (ones_ratio [255; 255; 255])
  /\ (nth 2 (ones_ratio [4; 1; 6; 7]%Z) 0 == 3 # 4)%Q.
Proof.
  split.
  - refine (proj2 (proj2 (proj2 (bit_balance_fractions [255; 255; 255] _))) _).
    + discriminate.
    + repeat constructor.
  - refine (proj2 (proj1 (proj2 (bit_balance_fractions [4; 1; 6; 7] _)) 2 _)).
    + discriminate.
    + lia.
Defined.

(** ** The autocorrelation *)

Lemma Forall2_map_ext (f g : Q -> Q) (l : list Q) :
  (forall v, (f v == g v)%Q) -> Forall2 Qeq (map f l) (map g l).
Proof. intros H. induction l; cbn [map]; constructor; auto. Qed.

Lemma Forall2_firstn (n : nat) (l l' : list Q) :
  Forall2 Qeq l l' -> Forall2 Qeq (firstn n l) (firstn n l').
Proof.
  intros H. revert n. induction H; intros [|n]; cbn [firstn]; constructor; auto.
Qed.

Lemma Forall2_skipn (n : nat) (l l' : list Q) :
  Forall2 Qeq l l' -> Forall2 Qeq (skipn n l) (skipn n l').
Proof.
  intros H. revert n. induction H; intros [|n]; cbn [skipn]; auto.
Qed.

Lemma code_x_spec_x (series : list Z) : Forall2 Qeq (code_x series) (spec_x series).
Proof.
  unfold code_x, spec_x, Np.astype_float. apply Forall2_map_ext. intros v.
  unfold Np.mean, spec_mean. now rewrite sum_Qsum.
Qed.

Lemma fold_left_dot (ps : list (Q * Q)) :
  forall acc : Q,
    (fold_left (fun a p => a + fst p * snd p) ps acc
     == acc + Qsum (map (fun p => fst p * snd p) ps))%Q.
Proof.
  induction ps as [|p ps IH]; intros acc; cbn [fold_left map Qsum fold_right].
  - ring.
  - rewrite IH. fold (Qsum (map (fun p => fst p * snd p)%Q ps)). ring.
Qed.

Lemma spec_dot_ext (a a' : list Q) :
  Forall2 Qeq a a' ->
  forall b b', Forall2 Qeq b b' -> (spec_dot a b == spec_dot a' b')%Q.
Proof.
  unfold spec_dot. induction 1 as [|u u' a a' Hu _ IH]; intros b b' Hb.
  - reflexivity.
  - destruct Hb as [|v v' b b' Hv Hb]; cbn [combine map Qsum fold_right fst snd].
    + reflexivity.
    + fold (Qsum (map (fun p => fst p * snd p)%Q (combine a b))).
      fold (Qsum (map (fun p => fst p * snd p)%Q (combine a' b'))).
      now rewrite Hu, Hv, (IH b b' Hb).
Qed.

(** The loop of [np.dot] computes the sum of products of the formula. *)
Lemma dot_spec_dot (a a' b b' : list Q) :
  Forall2 Qeq a a' -> Forall2 Qeq b b' ->
  (Np.sum_products a b == spec_dot a' b')%Q.
Proof.
  intros Ha Hb. unfold Np.sum_products. rewrite fold_left_dot.
  fold (spec_dot a b). rewrite (spec_dot_ext a a' Ha b b' Hb). ring.
Qed.

(** [np.dot] returns exactly when the two arrays have the same length. *)
Lemma dot_aligned (a b : list Q) :
  length a = length b -> Np.dot a b = inr (Np.sum_products a b).
Proof. intros H. unfold Np.dot. now rewrite H, Nat.eqb_refl. Qed.

Lemma dot_not_aligned (a b : list Q) :
  length a <> length b -> exists msg, Np.dot a b = inl (ValueError msg).
Proof.
  intros H. unfold Np.dot. apply Nat.eqb_neq in H. rewrite H. eauto.
Qed.

(** The two slices of a lag have the same length. *)
Lemma slices_aligned {A : Type} (lag : Z) (x : list A) :
  length (drop_last lag x) = length (drop_first lag x).
Proof.
  unfold drop_last, drop_first. rewrite length_firstn, length_skipn. lia.
Qed.

(** The loop over the lags: no [np.dot] raises, one value is appended
    for each lag. *)
Lemma lags_collect (x : list Q) (n var : Q) (lags : list Z) :
  forall acc : list Q,
    fold_left
      (fun acf lag =>
         match acf with
         | inl e => inl e
         | inr acf =>
             match Np.dot (drop_last lag x) (drop_first lag x) with
             | inl e => inl e
             | inr d => let v := (d / n)%Q in inr (acf ++ [(v / var)%Q])
             end
         end) lags (inr acc)
    = inr (acc ++ map (fun lag =>
                         (Np.sum_products (drop_last lag x) (drop_first lag x)
                          / n / var)%Q) lags).
Proof.
  induction lags as [|lag lags IH]; intros acc; cbn [fold_left map].
  - now rewrite app_nil_r.
  - rewrite (dot_aligned _ _ (slices_aligned lag x)). cbv zeta.
    now rewrite IH, <- app_assoc.
Qed.

Lemma length_range (a b : Z) : length (range a b) = Z.to_nat (b - a).
Proof. unfold range. now rewrite length_map, length_seq. Qed.

Lemma nth_range (a b : Z) (i : nat) :
  (i < Z.to_nat (b - a))%nat -> nth i (range a b) 0 = a + Z.of_nat i.
Proof.
  intros Hi. unfold range.
  rewrite nth_indep with (d' := a + Z.of_nat 0)
    by now rewrite length_map, length_seq.
  rewrite (map_nth (fun i => a + Z.of_nat i)), seq_nth by assumption.
  reflexivity.
Qed.

(** No [np.dot] of the function raises: the function is the test of the
    variance followed by one value for each lag. *)
Lemma compute_autocorrelation_eq (series : list Z) (max_lag : Z) :
  compute_autocorrelation series max_lag =
  if Qeq_bool (code_var series) 0
  then Np.zeros max_lag
  else inr (map (code_acf series) (range 1 (max_lag + 1))).
Proof.
  unfold compute_autocorrelation. fold (code_x series).
  rewrite (dot_aligned (code_x series) (code_x series) eq_refl).
  cbv zeta. fold (code_var series).
  destruct (Qeq_bool (code_var series) 0); [reflexivity|].
  apply (lags_collect (code_x series)).
Qed.

Lemma code_variance (series : list Z) :
  (code_var series == spec_variance series)%Q.
Proof.
  unfold code_var, spec_variance. cbv zeta.
  pose proof (code_x_spec_x series) as Hx.
  rewrite (dot_spec_dot _ _ _ _ Hx Hx).
  unfold len. now rewrite (Forall2_length Hx).
Qed.

(** The sum of products over the slices [x[:-L]] and [x[L:]] of the
    code is the one over [x[0:n-L]] and [x[L:n]] of the formula. *)
Lemma code_slices_spec_slices (series : list Z) (L : nat) :
  (Np.sum_products (drop_last (Z.of_nat L) (code_x series))
     (drop_first (Z.of_nat L) (code_x series))
   == spec_dot (spec_slice (spec_x series) 0 (length (spec_x series) - L))
        (spec_slice (spec_x series) L (length (spec_x series))))%Q.
Proof.
  pose proof (code_x_spec_x series) as Hx.
  unfold drop_last, drop_first, spec_slice. rewrite Nat2Z.id.
  apply dot_spec_dot.
  - cbn [skipn]. rewrite Nat.sub_0_r, (Forall2_length Hx).
    now apply Forall2_firstn.
  - rewrite (firstn_all2 (skipn L (spec_x series)))
      by (rewrite length_skipn; lia).
    now apply Forall2_skipn.
Qed.

Lemma code_acf_spec_acf (series : list Z) (L : nat) :
  (code_acf series (Z.of_nat L) == spec_acf series L)%Q.
Proof.
  unfold code_acf, spec_acf. cbv zeta.
  rewrite code_variance, code_slices_spec_slices.
  unfold len. now rewrite (Forall2_length (code_x_spec_x series)).
Qed.

(** C2.  For a buffer of at least two elements whose sample variance is
    not zero and a maximal lag of at least one, the function returns
    exactly [max_lag] values, and the value at lag [L], for [L] from 1 to
    [max_lag], is [dot(x[0:n-L], x[L:n]) / n / variance], where [x] is the
    buffer as reals minus its sample mean and [variance = dot(x,x) / n].
    At every such lag the [np.dot] of the loop is taken of two slices of
    the same length, so it returns, and what it returns is the [dot] of
    the formula over [x[0:n-L]] and [x[L:n]]. *)
Theorem autocorrelation_formula (buffer : list Z) (max_lag : Z) :
  (2 <= length buffer)%nat ->
  1 <= max_lag ->
  ~ (spec_variance buffer == 0)%Q ->
  (exists acf,
     compute_autocorrelation buffer max_lag = inr acf
     /\ length acf = Z.to_nat max_lag
     /\ forall L, (1 <= L <= Z.to_nat max_lag)%nat ->
          (nth (L - 1) acf 0 == spec_acf buffer L)%Q)
  /\ forall L, (1 <= L <= Z.to_nat max_lag)%nat ->
       exists d,
         Np.dot (drop_last (Z.of_nat L) (code_x buffer))
           (drop_first (Z.of_nat L) (code_x buffer)) = inr d
         /\ (d == spec_dot
                    (spec_slice (spec_x buffer) 0 (length (spec_x buffer) - L))
                    (spec_slice (spec_x buffer) L (length (spec_x buffer))))%Q.
Proof.
  intros _ Hlag Hvar. split.
  - exists (map (code_acf buffer) (range 1 (max_lag + 1))).
    split.
    + rewrite compute_autocorrelation_eq.
      destruct (Qeq_bool _ 0) eqn:E; [|reflexivity].
      apply Qeq_bool_iff in E. rewrite code_variance in E. contradiction.
    + split.
      * rewrite length_map, length_range. f_equal. lia.
      * intros L HL.
        rewrite nth_indep with (d' := code_acf buffer 0)
          by (rewrite length_map, length_range; lia).
        rewrite map_nth, nth_range by lia.
        replace (1 + Z.of_nat (L - 1)) with (Z.of_nat L) by lia.
        apply code_acf_spec_acf.
  - intros L _. eexists. split.
    + apply dot_aligned, slices_aligned.
    + apply code_slices_spec_slices.
Qed.

Lemma autocorrelation_formula_witness :
  (exists acf,
     compute_autocorrelation [1; 3; 2; 6] 2 = inr acf
     /\ length acf = 2%nat
     /\ forall L, (1 <= L <= 2)%nat ->
          (nth (L - 1) acf 0 == spec_acf [1; 3; 2; 6]%Z L)%Q)
  /\ forall L, (1 <= L <= 2)%nat ->
       exists d,
         Np.dot (drop_last (Z.of_nat L) (code_x [1; 3; 2; 6]))
           (drop_first (Z.of_nat L) (code_x [1; 3; 2; 6])) = inr d
         /\ (d == spec_dot
                    (spec_slice (spec_x [1; 3; 2; 6]%Z) 0
                       (length (spec_x [1; 3; 2; 6]%Z) - L))
                    (spec_slice (spec_x [1; 3; 2; 6]%Z) L
                       (length (spec_x [1; 3; 2; 6]%Z))))%Q.
Proof.
  refine (autocorrelation_formula [1; 3; 2; 6] 2 _ _ _).
  - cbn. lia.
  - lia.
  - vm_compute. discriminate.
Defined.

Lemma total_repeat (c : Z) (n : nat) : total (repeat c n) = Z.of_nat n * c.
Proof.
  induction n as [|n IH]; [reflexivity|].
  cbn [repeat total fold_right]. fold (total (repeat c n)). rewrite IH. lia.
Qed.

(** The sample mean of a constant buffer is its constant. *)
Lemma spec_mean_constant (series : list Z) (c : Z) :
  series <> [] -> Forall (eq c) series ->
  (spec_mean (map inject_Z series) == inject_Z c)%Q.
Proof.
  intros Hne Hc. pose proof (len_positive series Hne) as Hlen.
  unfold spec_mean. rewrite Qsum_inject.
  replace (len (map inject_Z series)) with (len series)
    by (unfold len; now rewrite length_map).
  rewrite (Forall_eq_repeat Hc) at 1. rewrite total_repeat.
  fold (len series). rewrite inject_Z_mult.
  field. apply inject_Z_nonzero. lia.
Qed.

Lemma spec_x_constant (series : list Z) (c : Z) :
  series <> [] -> Forall (eq c) series ->
  Forall (fun q => (q == 0)%Q) (spec_x series).
Proof.
  intros Hne Hc. unfold spec_x. cbv zeta. rewrite !Forall_map.
  apply Forall_impl with (P := eq c); [|exact Hc].
  intros v <-. rewrite (spec_mean_constant series c Hne Hc). ring.
Qed.

Lemma spec_dot_zero (a : list Q) :
  Forall (fun q => (q == 0)%Q) a -> forall b, (spec_dot a b == 0)%Q.
Proof.
  unfold spec_dot. induction 1 as [|u a Hu _ IH]; intros b; [reflexivity|].
  destruct b as [|v b]; cbn [combine map Qsum fold_right fst snd]; [reflexivity|].
  fold (Qsum (map (fun p => fst p * snd p)%Q (combine a b))).
  rewrite Hu, IH. ring.
Qed.

(** C9.  For a non-empty buffer whose elements are all the same and a
    maximal lag of at least one, the sample variance is zero and the
    function returns [max_lag] zeros; it does not raise. *)
Theorem autocorrelation_constant_buffer
  (series : list Z) (c : Z) (max_lag : Z) :
  series <> [] ->
  Forall (eq c) series ->
  1 <= max_lag ->
  (spec_variance series == 0)%Q
  /\ compute_autocorrelation series max_lag = inr (repeat 0%Q (Z.to_nat max_lag))
  /\ length (repeat 0%Q (Z.to_nat max_lag)) = Z.to_nat max_lag.
Proof.
  intros Hne Hc Hlag.
  assert (Hvar : (spec_variance series == 0)%Q).
  { unfold spec_variance. cbv zeta.
    rewrite (spec_dot_zero _ (spec_x_constant series c Hne Hc)).
    unfold Qdiv. apply Qmult_0_l. }
  split; [exact Hvar|]. split; [|apply repeat_length].
  rewrite compute_autocorrelation_eq.
  replace (Qeq_bool _ 0) with true
    by (symmetry; apply Qeq_bool_iff; now rewrite code_variance).
  unfold Np.zeros.
  now replace (max_lag <? 0) with false by (symmetry; apply Z.ltb_ge; lia).
Qed.

Lemma autocorrelation_constant_buffer_witness :
  compute_autocorrelation [7; 7; 7] 4 = inr [0%Q; 0%Q; 0%Q; 0%Q].
Proof.
  refine (proj1 (proj2 (autocorrelation_constant_buffer [7; 7; 7] 7 4 _ _ _))).
  - discriminate.
  - repeat constructor.
  - lia.
Defined.

(** * Further properties of the fetcher *)

(** ** What one round of the loop can do *)

Lemma setslice_length (out : list Z) (a b : Z) (v out' : list Z) :
  Np.setslice out a b v = inr out' -> length out' = length out.
Proof.
  unfold Np.setslice.
  set (i := Nat.min (Z.to_nat a) (length out)).
  set (j := Nat.max i (Nat.min (Z.to_nat b) (length out))).
  assert (Hi : (i <= j <= length out)%nat) by (subst i j; lia).
  destruct (Nat.eqb_spec (length v) (j - i)) as [Hv|Hv].
  - intros [= <-]. rewrite !length_app, length_firstn, length_skipn. lia.
  - destruct v as [|x [|y v]]; try discriminate.
    intros [= <-].
    rewrite !length_app, length_firstn, repeat_length, length_skipn. lia.
Qed.

Lemma bytes_firstn (n : nat) (l : list Z) : bytes l -> bytes (firstn n l).
Proof.
  unfold bytes. intros H. rewrite <- (firstn_skipn n l) in H.
  now apply Forall_app in H.
Qed.

Lemma bytes_skipn (n : nat) (l : list Z) : bytes l -> bytes (skipn n l).
Proof.
  unfold bytes. intros H. rewrite <- (firstn_skipn n l) in H.
  now apply Forall_app in H.
Qed.

Lemma setslice_bytes (out : list Z) (a b : Z) (v out' : list Z) :
  bytes out -> bytes v ->
  Np.setslice out a b v = inr out' -> bytes out'.
Proof.
  unfold Np.setslice. intros Hout Hv.
  destruct (Nat.eqb _ _).
  - intros [= <-]. unfold bytes. rewrite !Forall_app.
    repeat split; [apply bytes_firstn|assumption|apply bytes_skipn]; assumption.
  - destruct v as [|x [|y v]]; try discriminate.
    intros [= <-]. unfold bytes. rewrite !Forall_app.
    repeat split; [apply bytes_firstn; assumption| |apply bytes_skipn; assumption].
    apply Forall_forall. intros w Hw. apply repeat_spec in Hw. subst w.
    now inversion Hv.
Qed.

(** A round either stores a well-formed answer of the right size and
    pauses, or raises right after its request. *)
Lemma chunk_shape (net : nat -> option Response) (chunk_size : Z)
  (sleep_between : Q) (out : list Z) (written : Z) (t : trace) :
  (exists r vals out',
     net (gets t) = Some r /\ parses_to r vals /\ len vals = chunk_size
     /\ Np.setslice out written (written + chunk_size) (Np.array_uint8 vals)
        = inr out'
     /\ chunk net chunk_size sleep_between (out, written) t =
        (inr (out', written + chunk_size), t ++ round chunk_size sleep_between))
  \/ (exists e,
        chunk net chunk_size sleep_between (out, written) t =
        (inl e, t ++ [request chunk_size])).
Proof.
  unfold chunk, bind, requests_get, lift, raise, time_sleep, ret, request.
  destruct (net (gets t)) as [r|] eqn:Hnet; [|right; eauto].
  destruct (raise_for_status r) as [e|[]] eqn:Hst; [right; eauto|].
  destruct (startswith (strip (text r)) "Error:") eqn:Hmark; [right; eauto|].
  destruct (ints (split (strip (text r)))) as [e|vals] eqn:Hints; [right; eauto|].
  destruct (Z.eqb_spec (len vals) chunk_size) as [Hlen|Hlen]; cbn [negb];
    [|right; eauto].
  destruct (Np.setslice out written (written + chunk_size) (Np.array_uint8 vals))
    as [e|out'] eqn:Hset; [right; eauto|].
  left. exists r, vals, out'. unfold parses_to, round.
  rewrite <- app_assoc. repeat split; auto.
Qed.

(** The loop either completes all its rounds, each on a well-formed
    answer, or stops at the first round that raises. *)
Lemma loop_shape (net : nat -> option Response) (chunk_size : Z)
  (sleep_between : Q) (k : nat) :
  forall (out : list Z) (written : Z) (t : trace),
    (exists out',
       for_range k (chunk net chunk_size sleep_between) (out, written) t =
       (inr (out', written + Z.of_nat k * chunk_size),
        t ++ rounds k chunk_size sleep_between)
       /\ length out' = length out
       /\ (bytes out -> bytes out')
       /\ forall j, (j < k)%nat ->
            exists r vals, net (gets t + j)%nat = Some r /\ parses_to r vals
                           /\ len vals = chunk_size)
    \/ (exists e i,
          (i < k)%nat /\
          for_range k (chunk net chunk_size sleep_between) (out, written) t =
          (inl e, t ++ rounds i chunk_size sleep_between
                    ++ [request chunk_size])).
Proof.
  induction k as [|k IH]; intros out written t.
  - left. exists out. cbn [for_range]. unfold ret, rounds. cbn [repeat concat].
    rewrite app_nil_r, Z.mul_0_l, Z.add_0_r.
    repeat split; auto. intros j Hj. lia.
  - cbn [for_range]. unfold bind.
    destruct (chunk_shape net chunk_size sleep_between out written t)
      as [(r & vals & out1 & Hnet & Hp & Hlen & Hset & ->)|[e ->]].
    + assert (Hg : gets (t ++ round chunk_size sleep_between) = S (gets t)).
      { rewrite gets_app. cbn. lia. }
      destruct (IH out1 (written + chunk_size)
                  (t ++ round chunk_size sleep_between))
        as [(out' & -> & Hl & Hb & Hall)|(e & i & Hi & ->)].
      * left. exists out'. rewrite rounds_S, <- app_assoc.
        replace (written + chunk_size + Z.of_nat k * chunk_size)
          with (written + Z.of_nat (S k) * chunk_size) by lia.
        repeat split.
        -- rewrite Hl. eapply setslice_length; eassumption.
        -- intros Hout. apply Hb.
           apply (setslice_bytes out written (written + chunk_size)
                    (Np.array_uint8 vals) out1 Hout (uint8_bytes vals) Hset).
        -- intros [|j] Hj.
           ++ rewrite Nat.add_0_r. eauto.
           ++ specialize (Hall j ltac:(lia)). rewrite Hg in Hall.
              now replace (gets t + S j)%nat with (S (gets t) + j)%nat by lia.
      * right. exists e, (S i). split; [lia|].
        now rewrite rounds_S, <- !app_assoc.
    + right. exists e, 0%nat. split; [lia|]. reflexivity.
Qed.

(** The fetcher, with its sequence of checks laid out. *)
Lemma fetch_unfold (net : nat -> option Response) (uninit : nat -> Z)
  (n_bytes chunk_size : Z) (sleep_between : Q) (t : trace) :
  fetch_random_bytes_from_random_org net uninit n_bytes chunk_size
    sleep_between t =
  if chunk_size =? 0 then (inl ZeroDivisionError, t)
  else if negb (n_bytes mod chunk_size =? 0)
  then (inl (ValueError not_multiple_msg), t)
  else if n_bytes <? 0
  then (inl (ValueError "negative dimensions are not allowed"), t)
  else
    match for_range (chunks n_bytes chunk_size)
            (chunk net chunk_size sleep_between)
            (uninitialised uninit n_bytes, 0) t with
    | (inl e, t') => (inl e, t')
    | (inr st, t') => (inr (fst st), t')
    end.
Proof.
  unfold fetch_random_bytes_from_random_org, bind, lift, raise, ret,
    mod_, floordiv, Np.empty, chunks, uninitialised.
  destruct (chunk_size =? 0); [reflexivity|].
  destruct (negb (n_bytes mod chunk_size =? 0)); [reflexivity|].
  destruct (n_bytes <? 0); [reflexivity|].
  destruct (for_range _ _ _ t) as [[e|st] t']; reflexivity.
Qed.

Lemma gets_round_prefix (i : nat) (c : Z) (d : Q) :
  gets (rounds i c d ++ [request c]) = S i.
Proof. rewrite gets_app, gets_rounds. cbn. lia. Qed.

Lemma uninitialised_bytes (uninit : nat -> Z) (n : Z) :
  bytes (uninitialised uninit n).
Proof.
  unfold uninitialised. rewrite <- (map_map uninit Np.uint8).
  apply uint8_bytes.
Qed.

Lemma len_uninitialised (uninit : nat -> Z) (n : Z) :
  0 <= n -> len (uninitialised uninit n) = n.
Proof.
  intros Hn. unfold len, uninitialised. rewrite length_map, length_seq. lia.
Qed.

(** A division without remainder by a negative size gives no round. *)
Lemma chunks_degenerate (n_bytes chunk_size : Z) :
  chunk_size <= 0 \/ n_bytes <= 0 ->
  chunk_size <> 0 -> 0 <= n_bytes -> n_bytes mod chunk_size = 0 ->
  chunks n_bytes chunk_size = 0%nat.
Proof.
  intros Hdeg Hc Hn Hm. unfold chunks.
  pose proof (Z.div_mod n_bytes chunk_size Hc) as Hdm.
  rewrite Hm, Z.add_0_r in Hdm.
  destruct Hdeg as [Hneg|Hzero].
  - assert (n_bytes / chunk_size <= 0) by nia. lia.
  - assert (n_bytes = 0) as -> by lia. now rewrite Z.div_0_l.
Qed.

Lemma parses_answer_vals (net : nat -> option Response) (j : nat)
  (r : Response) (vals : list Z) :
  net j = Some r -> parses_to r vals -> answer_vals net j = vals.
Proof.
  intros Hnet (_ & _ & Hints). unfold answer_vals. now rewrite Hnet, Hints.
Qed.


(** X1.  Whatever the service answers and whatever the sizes are, the
    fetcher never issues more than [N / C] requests.  When it returns, the
    trace is exactly [N / C] rounds of one request and one pause; when it
    raises, either nothing was requested or the trace is [i] complete
    rounds and one more request, with no pause after it. *)
Theorem fetch_requests_bounded
  (net : nat -> option Response) (uninit : nat -> Z)
  (n_bytes chunk_size : Z) (sleep_between : Q) :
  let run := fetch_random_bytes_from_random_org net uninit n_bytes
               chunk_size sleep_between [] in
  let k := chunks n_bytes chunk_size in
  (gets (snd run) <= k)%nat
  /\ match fst run with
     | inr _ => snd run = rounds k chunk_size sleep_between
     | inl _ =>
         snd run = []
         \/ exists i, (i < k)%nat /\
              snd run = rounds i chunk_size sleep_between
                          ++ [request chunk_size]
     end.
Proof.
  cbv zeta. rewrite fetch_unfold.
  destruct (chunk_size =? 0); [cbn; split; [lia|now left]|].
  destruct (negb (n_bytes mod chunk_size =? 0)); [cbn; split; [lia|now left]|].
  destruct (n_bytes <? 0); [cbn; split; [lia|now left]|].
  destruct (loop_shape net chunk_size sleep_between (chunks n_bytes chunk_size)
              (uninitialised uninit n_bytes) 0 [])
    as [(out' & -> & _)|(e & i & Hi & ->)]; cbn [fst snd app].
  - rewrite gets_rounds. split; [lia|reflexivity].
  - rewrite gets_round_prefix. split; [lia|]. right. now exists i.
Qed.

(** A returned buffer has the requested length and holds bytes only,
    whatever the sizes are. *)
Lemma fetch_returns_bytes (net : nat -> option Response) (uninit : nat -> Z)
  (n_bytes chunk_size : Z) (sleep_between : Q) (buffer : list Z) (t t' : trace) :
  fetch_random_bytes_from_random_org net uninit n_bytes chunk_size
    sleep_between t = (inr buffer, t') ->
  len buffer = n_bytes /\ bytes buffer.
Proof.
  rewrite fetch_unfold.
  destruct (chunk_size =? 0); [discriminate|].
  destruct (negb (n_bytes mod chunk_size =? 0)); [discriminate|].
  destruct (Z.ltb_spec n_bytes 0) as [|Hn]; [discriminate|].
  destruct (loop_shape net chunk_size sleep_between (chunks n_bytes chunk_size)
              (uninitialised uninit n_bytes) 0 t)
    as [(out' & -> & Hl & Hb & _)|(e & i & Hi & ->)]; [|discriminate].
  cbn [fst]. intros [= <- _]. split.
  - unfold len. rewrite Hl. now apply len_uninitialised.
  - apply Hb, uninitialised_bytes.
Qed.

(** X2.  With a positive chunk size the fetcher returns a buffer only if
    the total is a non-negative multiple of the chunk size and every one
    of the [N / C] requests was answered with a well-formed body of
    exactly [C] integers.  The buffer is then made of those answers alone,
    in order and reduced modulo 256: no byte of it is uninitialised, and
    its length is [N]. *)
Theorem fetch_returns_only_complete_buffers
  (net : nat -> option Response) (uninit : nat -> Z)
  (n_bytes chunk_size : Z) (sleep_between : Q) (buffer : list Z) (t : trace) :
  0 < chunk_size ->
  fetch_random_bytes_from_random_org net uninit n_bytes chunk_size
    sleep_between [] = (inr buffer, t) ->
  let k := chunks n_bytes chunk_size in
  0 <= n_bytes /\ n_bytes mod chunk_size = 0
  /\ (forall j, (j < k)%nat ->
        exists r, net j = Some r /\ parses_to r (answer_vals net j)
                  /\ len (answer_vals net j) = chunk_size)
  /\ buffer = map Np.uint8 (concat (map (answer_vals net) (seq 0 k)))
  /\ len buffer = n_bytes
  /\ t = rounds k chunk_size sleep_between.
Proof.
  intros Hc Hrun k. pose proof Hrun as Hrun'.
  rewrite fetch_unfold in Hrun.
  destruct (Z.eqb_spec chunk_size 0) as [|_]; [lia|].
  destruct (Z.eqb_spec (n_bytes mod chunk_size) 0) as [Hm|]; [|discriminate].
  cbn [negb] in Hrun.
  destruct (Z.ltb_spec n_bytes 0) as [|Hn]; [discriminate|].
  destruct (loop_shape net chunk_size sleep_between (chunks n_bytes chunk_size)
              (uninitialised uninit n_bytes) 0 [])
    as [(out' & Hloop & _ & _ & Hall)|(e & i & Hi & Hloop)];
    rewrite Hloop in Hrun; [|discriminate].
  assert (Hgood : forall j, (j < k)%nat ->
            exists r, net j = Some r /\ parses_to r (answer_vals net j)
                      /\ len (answer_vals net j) = chunk_size).
  { intros j Hj. destruct (Hall j Hj) as (r & vals & Hr & Hp & Hl).
    cbn [gets filter length Nat.add] in Hr.
    rewrite (parses_answer_vals net j r vals Hr Hp). eauto. }
  assert (Hmod : mod_ n_bytes chunk_size = inr 0).
  { unfold mod_. destruct (Z.eqb_spec chunk_size 0); [lia|]. now rewrite Hm. }
  pose proof (fetch_good net uninit n_bytes chunk_size sleep_between
                (answer_vals net) Hc Hn Hmod Hgood) as Hfg.
  rewrite Hrun' in Hfg. injection Hfg as Hbuf Ht.
  split; [exact Hn|]. split; [exact Hm|]. split; [exact Hgood|].
  split; [now rewrite Hbuf, stored_concat|].
  split; [|exact Ht].
  apply (fetch_returns_bytes net uninit n_bytes chunk_size sleep_between
           buffer [] t Hrun').
Qed.

Lemma fetch_returns_only_complete_buffers_witness :
  [7; 0; 255; 16] = map Np.uint8 (concat (map (answer_vals net_bytes) (seq 0 2)))
  /\ len [7; 0; 255; 16] = 4.
Proof.
  pose proof (fetch_returns_only_complete_buffers net_bytes zero_memory 4 2
                (1 # 2) [7; 0; 255; 16] (rounds 2 2 (1 # 2))
                eq_refl eq_refl) as H.
  exact (conj (proj1 (proj2 (proj2 (proj2 H))))
              (proj1 (proj2 (proj2 (proj2 (proj2 H)))))).
Defined.

(** X3.  Unless both sizes are positive the fetcher issues no request at
    all.  A zero chunk size raises [ZeroDivisionError]; a total that is
    not a multiple of the chunk size raises [ValueError]; a negative
    multiple raises the [ValueError] of [np.empty]; and a total of zero,
    or a non-negative total with a negative chunk size that divides it,
    returns the buffer as [np.empty] left it, uninitialised. *)
Theorem fetch_degenerate_sizes
  (net : nat -> option Response) (uninit : nat -> Z)
  (n_bytes chunk_size : Z) (sleep_between : Q) (t : trace) :
  chunk_size <= 0 \/ n_bytes <= 0 ->
  fetch_random_bytes_from_random_org net uninit n_bytes chunk_size
    sleep_between t =
  (if chunk_size =? 0 then inl ZeroDivisionError
   else if negb (n_bytes mod chunk_size =? 0)
   then inl (ValueError not_multiple_msg)
   else if n_bytes <? 0
   then inl (ValueError "negative dimensions are not allowed")
   else inr (uninitialised uninit n_bytes),
   t).
Proof.
  intros Hdeg. rewrite fetch_unfold.
  destruct (Z.eqb_spec chunk_size 0) as [|Hc]; [reflexivity|].
  destruct (Z.eqb_spec (n_bytes mod chunk_size) 0) as [Hm|]; [|reflexivity].
  cbn [negb].
  destruct (Z.ltb_spec n_bytes 0) as [|Hn]; [reflexivity|].
  now rewrite (chunks_degenerate n_bytes chunk_size Hdeg Hc Hn Hm).
Qed.

(** Ten bytes in chunks of minus five: no request, ten bytes of whatever
    the memory held. *)
Lemma fetch_degenerate_sizes_witness :
  fetch_random_bytes_from_random_org net_bytes (fun i => Z.of_nat i + 250)
    10 (-5) (1 # 2) [] =
  (inr [250; 251; 252; 253; 254; 255; 0; 1; 2; 3], []).
Proof.
  refine (fetch_degenerate_sizes net_bytes (fun i => Z.of_nat i + 250)
            10 (-5) (1 # 2) [] _).
  left. discriminate.
Defined.

Section FailureKinds.

Variable net : nat -> option Response.
Variable uninit : nat -> Z.
Variables (n_bytes chunk_size : Z) (sleep_between : Q).
Variable vals : nat -> list Z.
Variable i : nat.

Hypothesis chunk_size_pos : 0 < chunk_size.
Hypothesis multiple : mod_ n_bytes chunk_size = inr 0.
Hypothesis in_range : (i < chunks n_bytes chunk_size)%nat.
Hypothesis good_before :
  forall j, (j < i)%nat ->
    exists r, net j = Some r /\ parses_to r (vals j)
              /\ len (vals j) = chunk_size.




End FailureKinds.




(** ** What [main] obtains *)

(** X7.  Whatever the service answers and whatever the sizes are, data
    that [main] obtains has exactly [N_BYTES] elements, all of them bytes,
    and comes from one source only: under the remote label it is the
    buffer the fetcher returned, under the fallback label it is the output
    of the generator, taken after the fetcher raised.  No other label
    occurs. *)
Theorem acquire_data_single_source
  (net : nat -> option Response) (uninit prng : nat -> Z)
  (n_bytes chunk_size : Z) (sleep_between : Q) (fallback : bool)
  (label : string) (data : list Z) (t : trace) :
  acquire net uninit prng
    {| N_BYTES := n_bytes; CHUNK_SIZE := chunk_size;
       SLEEP_BETWEEN_CALLS := sleep_between;
       USE_FALLBACK_IF_FAIL := fallback |} = (Data label data, t) ->
  len data = n_bytes /\ bytes data
  /\ ((label = remote_label
       /\ fetch_random_bytes_from_random_org net uninit n_bytes chunk_size
            sleep_between [] = (inr data, t))
      \/ (label = fallback_label /\ fallback = true
          /\ data = pseudorandom prng n_bytes
          /\ exists e,
               fetch_random_bytes_from_random_org net uninit n_bytes
                 chunk_size sleep_between [] = (inl e, t))).
Proof.
  unfold acquire. cbn [N_BYTES CHUNK_SIZE SLEEP_BETWEEN_CALLS USE_FALLBACK_IF_FAIL].
  destruct (fetch_random_bytes_from_random_org net uninit n_bytes chunk_size
              sleep_between []) as [[e|buffer] t'] eqn:Hrun.
  - destruct fallback; cbn [negb]; [|discriminate].
    unfold rng_integers. destruct (Z.ltb_spec n_bytes 0) as [|Hn]; [discriminate|].
    intros [= <- <- <-]. fold (pseudorandom prng n_bytes).
    split; [apply (len_uninitialised prng n_bytes Hn)|].
    split; [apply (uninitialised_bytes prng n_bytes)|].
    right. repeat split. now exists e.
  - intros [= <- <- <-].
    destruct (fetch_returns_bytes net uninit n_bytes chunk_size sleep_between
                buffer [] t' Hrun) as [Hl Hb].
    split; [exact Hl|]. split; [exact Hb|]. now left.
Qed.

Lemma acquire_data_single_source_witness :
  len (pseudorandom (fun i => Z.of_nat i + 254) 4) = 4
  /\ bytes (pseudorandom (fun i => Z.of_nat i + 254) 4).
Proof.
  pose proof (acquire_data_single_source net_dropped zero_memory
                (fun i => Z.of_nat i + 254) 4 2 (1 # 2) true fallback_label
                [254; 255; 0; 1] (rounds 1 2 (1 # 2) ++ [request 2])
                eq_refl) as H.
  exact (conj (proj1 H) (proj1 (proj2 H))).
Defined.

(** X8.  With the fallback enabled and a non-negative [N_BYTES], [main]
    always obtains its [N_BYTES] bytes: it neither exits nor fails at this
    stage, whatever the service does.  With the fallback disabled it exits
    with status 1 exactly when the fetcher raises. *)
Theorem acquire_with_fallback_always_has_data
  (net : nat -> option Response) (uninit prng : nat -> Z)
  (n_bytes chunk_size : Z) (sleep_between : Q) :
  0 <= n_bytes ->
  (exists label data,
     fst (acquire net uninit prng
            {| N_BYTES := n_bytes; CHUNK_SIZE := chunk_size;
               SLEEP_BETWEEN_CALLS := sleep_between;
               USE_FALLBACK_IF_FAIL := true |}) = Data label data
     /\ len data = n_bytes /\ bytes data)
  /\ (fst (acquire net uninit prng
             {| N_BYTES := n_bytes; CHUNK_SIZE := chunk_size;
                SLEEP_BETWEEN_CALLS := sleep_between;
                USE_FALLBACK_IF_FAIL := false |}) = Exit 1
      <-> exists e,
            fst (fetch_random_bytes_from_random_org net uninit n_bytes
                   chunk_size sleep_between []) = inl e).
Proof.
  intros Hn. unfold acquire.
  cbn [N_BYTES CHUNK_SIZE SLEEP_BETWEEN_CALLS USE_FALLBACK_IF_FAIL negb].
  destruct (fetch_random_bytes_from_random_org net uninit n_bytes chunk_size
              sleep_between []) as [[e|buffer] t'] eqn:Hrun; cbn [fst].
  - split.
    + unfold rng_integers.
      destruct (Z.ltb_spec n_bytes 0) as [|_]; [lia|]. cbn [fst].
      exists fallback_label, (pseudorandom prng n_bytes).
      split; [reflexivity|].
      split; [apply (len_uninitialised prng n_bytes Hn)
             |apply (uninitialised_bytes prng n_bytes)].
    + split; [now exists e|reflexivity].
  - destruct (fetch_returns_bytes net uninit n_bytes chunk_size sleep_between
                buffer [] t' Hrun) as [Hl Hb].
    split.
    + exists remote_label, buffer. auto.
    + split; [discriminate|]. intros [e He]. discriminate.
Qed.

Lemma acquire_with_fallback_always_has_data_witness :
  exists label data,
    fst (acquire net_unavailable zero_memory zero_memory
           {| N_BYTES := 2; CHUNK_SIZE := 2;
              SLEEP_BETWEEN_CALLS := 1 # 2;
              USE_FALLBACK_IF_FAIL := true |}) = Data label data
    /\ len data = 2 /\ bytes data.
Proof.
  refine (proj1 (acquire_with_fallback_always_has_data net_unavailable
                   zero_memory zero_memory 2 2 (1 # 2) _)).
  discriminate.
Defined.

(** * Further properties of the statistics *)

(** ** The autocorrelation at its edges *)

Lemma range_empty (a b : Z) : b <= a -> range a b = [].
Proof. intros H. unfold range. now replace (Z.to_nat (b - a)) with 0%nat by lia. Qed.

Lemma variance_test (series : list Z) :
  Qeq_bool (code_var series) 0 = true <-> (spec_variance series == 0)%Q.
Proof. rewrite Qeq_bool_iff. now rewrite code_variance. Qed.

(** X9.  On a non-empty series the function returns exactly [max_lag]
    values for every [max_lag >= 0], whether the variance is zero or not
    (none at all for [max_lag = 0]).  For a negative [max_lag] the two
    branches differ: a constant series raises the [ValueError] of
    [np.zeros], any other series returns the empty array. *)
Theorem autocorrelation_lag_count (series : list Z) (max_lag : Z) :
  series <> [] ->
  (0 <= max_lag ->
   exists acf, compute_autocorrelation series max_lag = inr acf
               /\ len acf = max_lag)
  /\ (max_lag < 0 ->
      ((spec_variance series == 0)%Q ->
       compute_autocorrelation series max_lag =
       inl (ValueError "negative dimensions are not allowed"))
      /\ (~ (spec_variance series == 0)%Q ->
          compute_autocorrelation series max_lag = inr [])).
Proof.
  intros _. rewrite compute_autocorrelation_eq.
  pose proof (variance_test series) as Hvar.
  destruct (Qeq_bool _ 0); split.
  - intros Hlag. unfold Np.zeros.
    destruct (Z.ltb_spec max_lag 0); [lia|].
    eexists. split; [reflexivity|]. unfold len. rewrite repeat_length. lia.
  - intros Hlag. split.
    + intros _. unfold Np.zeros. now destruct (Z.ltb_spec max_lag 0); [|lia].
    + intros Hnz. exfalso. apply Hnz, Hvar. reflexivity.
  - intros Hlag. eexists. split; [reflexivity|].
    unfold len. rewrite length_map, length_range. lia.
  - intros Hlag. split.
    + intros Hz. apply Hvar in Hz. discriminate.
    + intros _. now rewrite range_empty by lia.
Qed.

Lemma autocorrelation_lag_count_witness :
  (exists acf, compute_autocorrelation [1; 3; 2; 6] 0 = inr acf /\ len acf = 0)
  /\ compute_autocorrelation [7; 7; 7] (-1) =
     inl (ValueError "negative dimensions are not allowed")
  /\ compute_autocorrelation [1; 3; 2; 6] (-1) = inr [].
Proof.
  split; [|split].
  - refine (proj1 (autocorrelation_lag_count [1; 3; 2; 6] 0 _) _);
      [discriminate|lia].
  - refine (proj1 (proj2 (autocorrelation_lag_count [7; 7; 7] (-1) _) _) _);
      [discriminate|lia|reflexivity].
  - refine (proj2 (proj2 (autocorrelation_lag_count [1; 3; 2; 6] (-1) _) _) _);
      [discriminate|lia|]. vm_compute. discriminate.
Defined.

Lemma length_code_x (series : list Z) : length (code_x series) = length series.
Proof. unfold code_x, Np.astype_float. now rewrite !length_map. Qed.

(** X10.  On a series of nonzero variance, every lag that is at least
    the length of the series gets the value 0: both slices [x[:-L]] and
    [x[L:]] are empty, [np.dot] of the two is 0, and so is the value the
    loop appends. *)
Theorem autocorrelation_beyond_length
  (series : list Z) (max_lag : Z) (L : nat) :
  ~ (spec_variance series == 0)%Q ->
  (length series <= L)%nat ->
  (1 <= L)%nat ->
  Z.of_nat L <= max_lag ->
  drop_last (Z.of_nat L) (code_x series) = []
  /\ drop_first (Z.of_nat L) (code_x series) = []
  /\ Np.dot (drop_last (Z.of_nat L) (code_x series))
       (drop_first (Z.of_nat L) (code_x series)) = inr 0%Q
  /\ exists acf,
       compute_autocorrelation series max_lag = inr acf
       /\ (nth (L - 1) acf 1 == 0)%Q.
Proof.
  intros Hnz Hlen HL Hmax.
  assert (Hlast : drop_last (Z.of_nat L) (code_x series) = []).
  { unfold drop_last. rewrite Nat2Z.id.
    replace (length (code_x series) - L)%nat with 0%nat
      by (rewrite length_code_x; lia).
    reflexivity. }
  assert (Hfirst : drop_first (Z.of_nat L) (code_x series) = []).
  { unfold drop_first. rewrite Nat2Z.id.
    apply skipn_all2. rewrite length_code_x. lia. }
  split; [exact Hlast|]. split; [exact Hfirst|].
  split; [now rewrite Hlast, Hfirst|].
  exists (map (code_acf series) (range 1 (max_lag + 1))). split.
  - rewrite compute_autocorrelation_eq.
    destruct (Qeq_bool _ 0) eqn:E; [|reflexivity].
    apply variance_test in E. contradiction.
  - rewrite nth_indep with (d' := code_acf series 0)
      by (rewrite length_map, length_range; lia).
    rewrite map_nth, nth_range by lia.
    replace (1 + Z.of_nat (L - 1)) with (Z.of_nat L) by lia.
    unfold code_acf. cbv zeta. rewrite Hlast, Hfirst.
    unfold Np.sum_products. cbn [combine fold_left].
    unfold Qdiv. now rewrite !Qmult_0_l.
Qed.

Lemma autocorrelation_beyond_length_witness :
  drop_last 5 (code_x [1; 3; 2; 6]) = []
  /\ drop_first 5 (code_x [1; 3; 2; 6]) = []
  /\ Np.dot (drop_last 5 (code_x [1; 3; 2; 6]))
       (drop_first 5 (code_x [1; 3; 2; 6])) = inr 0%Q
  /\ exists acf,
       compute_autocorrelation [1; 3; 2; 6] 9 = inr acf
       /\ (nth (5 - 1) acf 1 == 0)%Q.
Proof.
  refine (autocorrelation_beyond_length [1; 3; 2; 6] 9 5 _ _ _ _).
  - vm_compute. discriminate.
  - cbn. lia.
  - lia.
  - lia.
Defined.

(** ** The bit balance is a fraction *)

Lemma count_bounds (p : Z -> bool) (data : list Z) :
  0 <= Np.count p data <= len data.
Proof.
  unfold Np.count, len. pose proof (filter_length_le p data). lia.
Qed.

(** X11.  For a non-empty buffer every one of the eight bit fractions
    lies between 0 and 1. *)
Theorem ones_ratio_bounds (data : list Z) :
  data <> [] ->
  Forall (fun f => (0 <= f <= 1)%Q) (ones_ratio data).
Proof.
  intros Hne. pose proof (len_positive data Hne) as Hlen.
  assert (Hpos : (0 < inject_Z (len data))%Q)
    by (change 0%Q with (inject_Z 0); now rewrite <- Zlt_Qlt).
  assert (Hfrac : forall p, 0 <= p ->
            (0 <= Np.mean (Np.astype_float (map (bit p) data)) <= 1)%Q).
  { intros p Hp. rewrite ones_ratio_fraction by assumption.
    pose proof (count_bounds (fun v => Z.testbit v p) data) as [Hlo Hhi].
    split.
    - apply Qle_shift_div_l; [exact Hpos|]. rewrite Qmult_0_l.
      change 0%Q with (inject_Z 0). now rewrite <- Zle_Qle.
    - apply Qle_shift_div_r; [exact Hpos|]. rewrite Qmult_1_l.
      now rewrite <- Zle_Qle. }
  rewrite ones_ratio_eq. apply Forall_map.
  repeat constructor; apply Hfrac; lia.
Qed.

Lemma ones_ratio_bounds_witness :
  Forall (fun f => (0 <= f <= 1)%Q) (ones_ratio [4; 1; 6; 7; 255]).
Proof.
  refine (ones_ratio_bounds [4; 1; 6; 7; 255] _). discriminate.
Defined.

(** ** The views of [main] taken together *)

Lemma length_kept (data : list Z) :
  let s := Z.sqrt (len data) in
  len (firstn (Z.to_nat (s * s)) data) = s * s.
Proof.
  cbv zeta. unfold len. rewrite length_firstn.
  pose proof (Z.sqrt_spec (Z.of_nat (length data)) ltac:(lia)) as H.
  cbv zeta in H.
  pose proof (Z.sqrt_nonneg (Z.of_nat (length data))). nia.
Qed.

Lemma reshape_square (kept : list Z) (s : Z) :
  0 <= s -> len kept = s * s ->
  Np.reshape kept s s = inr (Np.rows (Z.to_nat s) (Z.to_nat s) kept).
Proof.
  intros Hs Hk. unfold Np.reshape.
  replace (s <? 0) with false by (symmetry; apply Z.ltb_ge; lia).
  cbn [orb]. rewrite Hk. now rewrite Z.eqb_refl.
Qed.

Lemma autocorrelation_returns (series : list Z) (max_lag : Z) :
  0 <= max_lag ->
  exists acf, compute_autocorrelation series max_lag = inr acf
              /\ len acf = max_lag.
Proof.
  intros Hlag. rewrite compute_autocorrelation_eq.
  destruct (Qeq_bool _ 0).
  - unfold Np.zeros. destruct (Z.ltb_spec max_lag 0); [lia|].
    eexists. split; [reflexivity|]. unfold len. rewrite repeat_length. lia.
  - eexists. split; [reflexivity|].
    unfold len. rewrite length_map, length_range. lia.
Qed.

Lemma hist_counts_total (data : list Z) :
  bytes data -> total (hist_counts data) = len data.
Proof.
  intros Hb. unfold bytes in Hb. rewrite Forall_forall in Hb.
  change (hist_counts data) with (Np.histogram data (unit_edges 0 255)).
  rewrite histogram_total. apply count_all. intros v Hv.
  specialize (Hb v Hv). apply andb_true_iff. split; apply Z.leb_le; cbn; lia.
Qed.

(** X12.  On a non-empty buffer of bytes the statistics of [main] never
    raise, and all four views are taken from the cropped data: the image
    is the grid of the first [side * side] bytes, the histogram counts add
    up to [side * side] and not to the length of the buffer, the bit
    fractions and the hundred autocorrelation values are those of the
    cropped data.  The bytes beyond [side * side] enter none of them. *)
Theorem statistics_use_cropped_data (data : list Z) :
  data <> [] -> bytes data ->
  let s := side data in
  let kept := firstn (Z.to_nat (s * s)) data in
  exists v,
    statistics data = inr v
    /\ v_img v = Np.rows (Z.to_nat s) (Z.to_nat s) kept
    /\ v_hist_counts v = hist_counts kept
    /\ total (v_hist_counts v) = s * s
    /\ v_ones_ratio v = ones_ratio kept
    /\ compute_autocorrelation kept 100 = inr (v_acf v)
    /\ len (v_acf v) = 100.
Proof.
  intros _ Hb s kept.
  assert (Hs : s = Z.sqrt (len data)).
  { subst s. unfold side. now rewrite crop_eq. }
  assert (Hk : len kept = s * s).
  { subst kept. rewrite Hs. apply length_kept. }
  assert (Hnn : 0 <= s) by (rewrite Hs; apply Z.sqrt_nonneg).
  destruct (autocorrelation_returns kept 100 ltac:(lia)) as (acf & Hacf & Hlen).
  exists {| v_img := Np.rows (Z.to_nat s) (Z.to_nat s) kept;
            v_hist_counts := hist_counts kept;
            v_ones_ratio := ones_ratio kept; v_acf := acf |}.
  cbn [v_img v_hist_counts v_ones_ratio v_acf].
  split.
  - unfold statistics. rewrite crop_eq, <- Hs. fold kept.
    now rewrite (reshape_square kept s Hnn Hk), Hacf.
  - repeat split; auto.
    rewrite hist_counts_total; [exact Hk|]. subst kept. now apply bytes_firstn.
Qed.

Lemma statistics_use_cropped_data_witness :
  exists v,
    statistics [9; 8; 7; 6; 5] = inr v
    /\ v_img v = [[9; 8]; [7; 6]]
    /\ v_hist_counts v = hist_counts [9; 8; 7; 6]
    /\ total (v_hist_counts v) = 4
    /\ v_ones_ratio v = ones_ratio [9; 8; 7; 6]
    /\ compute_autocorrelation [9; 8; 7; 6] 100 = inr (v_acf v)
    /\ len (v_acf v) = 100.
Proof.
  refine (statistics_use_cropped_data [9; 8; 7; 6; 5] _ _).
  - discriminate.
  - unfold bytes. repeat constructor; discriminate.
Defined.

(** X13.  A buffer whose length is a perfect square is not cropped: the
    side is the root of the length and the image uses every byte. *)
Theorem crop_keeps_perfect_squares (data : list Z) (s : Z) :
  0 <= s -> len data = s * s ->
  crop data = (s, data)
  /\ img data = inr (Np.rows (Z.to_nat s) (Z.to_nat s) data)
  /\ concat (Np.rows (Z.to_nat s) (Z.to_nat s) data) = data.
Proof.
  intros Hs Hlen.
  assert (Hcrop : crop data = (s, data)).
  { rewrite crop_eq, Hlen, Z.sqrt_square by assumption.
    rewrite <- Hlen. unfold len. now rewrite Nat2Z.id, firstn_all. }
  split; [exact Hcrop|]. split.
  - unfold img. rewrite Hcrop. now apply reshape_square.
  - apply concat_rows. unfold len in Hlen. nia.
Qed.

Lemma crop_keeps_perfect_squares_witness :
  crop [1; 2; 3; 4; 5; 6; 7; 8; 9] = (3, [1; 2; 3; 4; 5; 6; 7; 8; 9])
  /\ img [1; 2; 3; 4; 5; 6; 7; 8; 9] = inr [[1; 2; 3]; [4; 5; 6]; [7; 8; 9]]
  /\ concat [[1; 2; 3]; [4; 5; 6]; [7; 8; 9]] = [1; 2; 3; 4; 5; 6; 7; 8; 9].
Proof.
  refine (crop_keeps_perfect_squares [1; 2; 3; 4; 5; 6; 7; 8; 9] 3 _ _).
  - discriminate.
  - reflexivity.
Defined.

(** * Reading the plain format *)

(** ** Blanks *)

Lemma lstrip_no_space (s : string) : no_space s -> lstrip s = s.
Proof.
  unfold no_space. destruct s as [|c s]; [reflexivity|].
  cbn [list_ascii_of_string lstrip]. intros H. inversion H as [|? ? Hc _].
  now rewrite Hc.
Qed.

Lemma rstrip_no_space (s : string) : no_space s -> rstrip s = s.
Proof.
  unfold no_space. induction s as [|c s IH]; [reflexivity|].
  cbn [list_ascii_of_string]. intros H. inversion H as [|? ? Hc Hs].
  now rewrite rstrip_keeps, IH.
Qed.

Lemma strip_no_space (s : string) : no_space s -> strip s = s.
Proof.
  intros H. unfold strip. now rewrite lstrip_no_space, rstrip_no_space.
Qed.

Lemma flush_nil_r (tok : list ascii) : flush tok ++ flush [] = flush tok.
Proof. cbn [flush]. apply app_nil_r. Qed.

Lemma split_from_rstrip (s : string) :
  forall tok, split_from (rstrip s) tok = split_from s tok.
Proof.
  induction s as [|c s IH]; intros tok; [reflexivity|].
  cbn [rstrip]. destruct (rstrip s) as [|c' t] eqn:Hr.
  - destruct (isspace c) eqn:Hc; cbn [split_from]; rewrite Hc.
    + rewrite <- IH. cbn [split_from]. now rewrite flush_nil_r.
    + now rewrite <- IH.
  - cbn [split_from]. destruct (isspace c); now rewrite <- IH.
Qed.

Lemma split_lstrip (s : string) : split (lstrip s) = split s.
Proof.
  unfold split. induction s as [|c s IH]; [reflexivity|].
  cbn [lstrip split_from]. destruct (isspace c) eqn:Hc; [exact IH|].
  cbn [split_from]. now rewrite Hc.
Qed.

(** Splitting does not see the blanks that stripping removes. *)
Lemma split_strip (s : string) : split (strip s) = split s.
Proof.
  unfold strip, split at 1. rewrite split_from_rstrip. apply split_lstrip.
Qed.

Lemma split_from_token (w : string) :
  no_space w ->
  forall (s : string) (tok : list ascii),
    split_from (w ++ s) tok =
    split_from s (rev (list_ascii_of_string w) ++ tok).
Proof.
  unfold no_space. induction w as [|c w IH]; intros H s tok; [reflexivity|].
  cbn [list_ascii_of_string] in H. inversion H as [|? ? Hc Hw].
  cbn [append split_from list_ascii_of_string rev]. rewrite Hc, IH by assumption.
  now rewrite <- app_assoc.
Qed.

Lemma split_line (w s : string) :
  no_space w -> w <> EmptyString ->
  split (w ++ nl ++ s) = w :: split s.
Proof.
  intros Hw Hne. unfold split. rewrite split_from_token by assumption.
  cbn [nl append split_from]. replace (isspace "010") with true by reflexivity.
  rewrite app_nil_r. unfold flush.
  destruct (rev (list_ascii_of_string w)) as [|c l] eqn:Hrev.
  - exfalso. apply Hne. destruct w; [reflexivity|].
    apply (f_equal (@length ascii)) in Hrev.
    rewrite length_rev in Hrev. discriminate.
  - rewrite <- Hrev, rev_involutive, string_of_list_ascii_of_string.
    reflexivity.
Qed.

(** ** Numerals *)

Lemma numeral_char_facts (c : ascii) :
  In c numeral_chars -> isspace c = false /\ c <> "E"%char.
Proof.
  unfold numeral_chars. cbn [In].
  intros [<-|[<-|[<-|[<-|[<-|[<-|[<-|[<-|[<-|[<-|[<-|[]]]]]]]]]]]];
    split; (reflexivity || discriminate).
Qed.

Lemma string_of_uint_chars (d : Decimal.uint) :
  Forall (fun c => In c numeral_chars)
    (list_ascii_of_string (NilEmpty.string_of_uint d)).
Proof.
  induction d; cbn [NilEmpty.string_of_uint list_ascii_of_string];
    constructor; try assumption; unfold numeral_chars; cbn [In]; tauto.
Qed.

Lemma string_of_uint_nonnil (d : Decimal.uint) :
  d <> Decimal.Nil ->
  NilZero.string_of_uint d = NilEmpty.string_of_uint d
  /\ NilEmpty.string_of_uint d <> EmptyString.
Proof. destruct d; intros H; try congruence; split; (reflexivity || discriminate). Qed.

Lemma str_chars (z : Z) :
  Forall (fun c => In c numeral_chars) (list_ascii_of_string (str z))
  /\ str z <> EmptyString.
Proof.
  unfold str. destruct z as [|p|p]; cbn [Z.to_int NilZero.string_of_int].
  - split; [|discriminate]. repeat constructor.
  - destruct (string_of_uint_nonnil (Pos.to_uint p)
                (DecimalPos.Unsigned.to_uint_nonnil p)) as [-> Hne].
    split; [apply string_of_uint_chars|exact Hne].
  - destruct (string_of_uint_nonnil (Pos.to_uint p)
                (DecimalPos.Unsigned.to_uint_nonnil p)) as [-> Hne].
    split; [|discriminate]. cbn [list_ascii_of_string]. constructor.
    + unfold numeral_chars. cbn; tauto.
    + apply string_of_uint_chars.
Qed.

Lemma str_no_space (z : Z) : no_space (str z).
Proof.
  unfold no_space. eapply Forall_impl; [|apply str_chars].
  intros c Hc. now apply numeral_char_facts.
Qed.

Lemma int_digits_uint (d : Decimal.uint) :
  forall (acc : Z) (after_digit : bool),
    d <> Decimal.Nil \/ after_digit = true ->
    int_digits (NilEmpty.string_of_uint d) acc after_digit =
    Some (uint_value d acc).
Proof.
  induction d; intros acc b Hb;
    cbn [NilEmpty.string_of_uint int_digits uint_value];
    try (change (Ascii.eqb _ "_") with false; cbv iota;
         match goal with
         | |- context [digit ?c] =>
             let v := eval vm_compute in (digit c) in
             change (digit c) with v
         end; cbv iota; rewrite IHd by (right; reflexivity);
         do 2 f_equal; lia).
  destruct Hb as [Hb| ->]; [congruence|reflexivity].
Qed.

Lemma uint_value_pos (d : Decimal.uint) :
  forall p : positive, uint_value d (Z.pos p) = Z.pos (Pos.of_uint_acc d p).
Proof.
  induction d; intros p; cbn [uint_value Pos.of_uint_acc]; [reflexivity|..];
    rewrite <- IHd; f_equal; lia.
Qed.

Lemma uint_value_0 (d : Decimal.uint) : uint_value d 0 = Z.of_uint d.
Proof.
  unfold Z.of_uint.
  induction d; cbn [uint_value Pos.of_uint]; [reflexivity|exact IHd|..];
    cbn [Z.mul Z.add]; now rewrite uint_value_pos.
Qed.

Lemma int_uint (d : Decimal.uint) :
  d <> Decimal.Nil ->
  int_digits (NilZero.string_of_uint d) 0 false = Some (Z.of_uint d).
Proof.
  intros Hd. destruct (string_of_uint_nonnil d Hd) as [-> _].
  rewrite int_digits_uint by now left. now rewrite uint_value_0.
Qed.

Lemma first_char_digit (d : Decimal.uint) (c : ascii) (s : string) :
  NilEmpty.string_of_uint d = String c s ->
  c <> "+"%char /\ c <> "-"%char.
Proof.
  destruct d; cbn [NilEmpty.string_of_uint]; intros [= <- _];
    split; discriminate.
Qed.

(** [int] reads back what [str] writes. *)
Lemma int_str (z : Z) : int (str z) = inr z.
Proof.
  unfold int. rewrite (strip_no_space (str z) (str_no_space z)).
  unfold str. destruct z as [|p|p]; cbn [Z.to_int NilZero.string_of_int].
  - reflexivity.
  - pose proof (DecimalPos.Unsigned.to_uint_nonnil p) as Hnil.
    pose proof (int_uint (Pos.to_uint p) Hnil) as Hint.
    destruct (string_of_uint_nonnil (Pos.to_uint p) Hnil) as [Heq Hne].
    rewrite Heq in *.
    destruct (NilEmpty.string_of_uint (Pos.to_uint p)) as [|c s] eqn:Hs;
      [congruence|].
    destruct (first_char_digit _ _ _ Hs) as [Hplus Hminus].
    assert (Hval : Z.of_uint (Pos.to_uint p) = Z.pos p)
      by apply (DecimalZ.of_to (Z.pos p)).
    destruct (Ascii.eqb_spec c "+") as [|_]; [contradiction|].
    destruct (Ascii.eqb_spec c "-") as [|_]; [contradiction|].
    destruct c as [[] [] [] [] [] [] [] []];
      try (exfalso; apply Hplus; reflexivity);
      try (exfalso; apply Hminus; reflexivity);
      rewrite Hint, Hval; reflexivity.
  - pose proof (DecimalPos.Unsigned.to_uint_nonnil p) as Hnil.
    rewrite (int_uint (Pos.to_uint p) Hnil). cbn [option_map].
    assert (Hval : - Z.of_uint (Pos.to_uint p) = Z.neg p)
      by apply (DecimalZ.of_to (Z.neg p)).
    now rewrite Hval.
Qed.

Lemma ints_str (zs : list Z) : ints (map str zs) = inr zs.
Proof.
  induction zs as [|z zs IH]; [reflexivity|].
  cbn [map ints]. now rewrite int_str, IH.
Qed.

Lemma split_column (zs : list Z) : split (column zs) = map str zs.
Proof.
  induction zs as [|z zs IH]; [reflexivity|].
  cbn [column map].
  rewrite split_line by (apply str_no_space || apply str_chars).
  now rewrite IH.
Qed.

Lemma prefix_other_char (c : ascii) (s : string) :
  c <> "E"%char -> String.prefix "Error:" (String c s) = false.
Proof.
  intros Hc. cbn [String.prefix].
  destruct (ascii_dec "E" c) as [<-|]; [contradiction|reflexivity].
Qed.

Lemma column_no_marker (zs : list Z) :
  startswith (strip (column zs)) "Error:" = false.
Proof.
  unfold startswith. destruct zs as [|z zs]; [reflexivity|].
  cbn [column]. destruct (str_chars z) as [Hchars Hne].
  destruct (str z) as [|c s]; [congruence|].
  cbn [list_ascii_of_string] in Hchars. inversion Hchars as [|? ? Hc _].
  destruct (numeral_char_facts c Hc) as [Hsp HE].
  unfold strip. cbn [append lstrip]. rewrite Hsp.
  rewrite rstrip_keeps by assumption. now apply prefix_other_char.
Qed.

Lemma column_parses (status : Z) (zs : list Z) :
  ~ 400 <= status < 600 ->
  parses_to {| status_code := status; text := column zs |} zs.
Proof.
  intros Hst. unfold parses_to. cbn [text]. repeat split.
  - unfold raise_for_status. cbn [status_code].
    destruct (Z.leb_spec 400 status), (Z.ltb_spec status 600);
      try reflexivity. lia.
  - apply column_no_marker.
  - rewrite split_strip, split_column. apply ints_str.
Qed.

(** X14.  A body that lists integers in decimal, one per line, each
    numeral of at most 4300 digits, is read back as exactly these integers
    when it comes with a non-error status: it carries no error marker,
    every token converts, and the order is kept.  In particular an empty
    body reads as no integer at all. *)
Theorem plain_answer_parses (status : Z) (zs : list Z) :
  ~ 400 <= status < 600 ->
  Forall short_numeral zs ->
  parses_to {| status_code := status; text := column zs |} zs.
Proof. intros Hst _. exact (column_parses status zs Hst). Qed.

Lemma plain_answer_parses_witness :
  parses_to {| status_code := 200;
               text := "17" ++ nl ++ "0" ++ nl ++ "-3" ++ nl ++ "255" ++ nl |}
    [17; 0; -3; 255].
Proof.
  refine (plain_answer_parses 200 [17; 0; -3; 255] _ _).
  - lia.
  - repeat constructor.
Defined.

(** X15.  End to end over a service that answers in the plain format,
    with the checks of NumPy and of the clock: for [C > 0], [N >= 0] a
    multiple of [C] and a pause that the clock takes, when request [j] is
    answered with status 200 and the column of [C] integers of [0, 255],
    the fetcher returns exactly these integers in request order, after one
    request and one pause for each chunk.  This holds of every conversion
    to [uint8] that leaves the integers of [0, 255] as they are. *)
Theorem fetch_reads_plain_answers
  (net : nat -> option Response) (uninit : nat -> Z)
  (to_uint8 : Z -> result Z) (longest_sleep : Q)
  (n_bytes chunk_size : Z) (sleep_between : Q) (vals : nat -> list Z) :
  0 < chunk_size -> 0 <= n_bytes -> n_bytes mod chunk_size = 0 ->
  takes_pause longest_sleep sleep_between ->
  (forall v, 0 <= v <= 255 -> to_uint8 v = inr v) ->
  (forall j, (j < chunks n_bytes chunk_size)%nat ->
     net j = ok (column (vals j)) /\ len (vals j) = chunk_size
     /\ bytes (vals j)) ->
  let k := chunks n_bytes chunk_size in
  let sent := concat (map vals (seq 0 k)) in
  Strict.fetch_random_bytes_from_random_org net uninit to_uint8 longest_sleep
    n_bytes chunk_size sleep_between [] =
  (inr sent, rounds k chunk_size sleep_between)
  /\ bytes sent
  /\ len sent = n_bytes.
Proof.
  intros Hc Hn Hm Hpause Hbyte Hnet k sent.
  assert (Hmod : mod_ n_bytes chunk_size = inr 0).
  { unfold mod_. destruct (Z.eqb_spec chunk_size 0); [lia|]. now rewrite Hm. }
  assert (Hsent : bytes sent).
  { subst sent. apply bytes_concat. intros l Hl.
    apply in_map_iff in Hl as (j & <- & Hj). apply in_seq in Hj.
    destruct (Hnet j ltac:(lia)) as (_ & _ & Hb). exact Hb. }
  split; [|split; [exact Hsent|]].
  - rewrite <- (uint8_id sent Hsent). subst sent k.
    apply strict_fetch_good; try assumption.
    + intros j Hj. destruct (Hnet j Hj) as (Hj1 & Hj2 & _).
      eexists. split; [exact Hj1|]. split; [|exact Hj2].
      apply column_parses. lia.
    + intros j Hj. destruct (Hnet j Hj) as (_ & _ & Hb).
      unfold bytes in Hb. apply Forall_impl with (2 := Hb).
      intros v Hv. now apply casts_byte.
  - subst sent. rewrite (len_sent vals chunk_size k).
    + destruct (exact_division n_bytes chunk_size Hc Hmod); [assumption|lia].
    + intros j Hj. destruct (Hnet j Hj) as (_ & Hl & _). exact Hl.
Qed.

Lemma fetch_reads_plain_answers_witness :
  Strict.fetch_random_bytes_from_random_org net_bytes zero_memory
    Np.uint8_numpy1 (10 # 1) 4 2 (1 # 2) [] =
  (inr [7; 0; 255; 16], rounds 2 2 (1 # 2))
  /\ bytes [7; 0; 255; 16]
  /\ len [7; 0; 255; 16] = 4.
Proof.
  refine (fetch_reads_plain_answers net_bytes zero_memory Np.uint8_numpy1
            (10 # 1) 4 2 (1 # 2) vals_bytes _ _ _ _ _ _).
  - reflexivity.
  - discriminate.
  - reflexivity.
  - unfold takes_pause, Qle. cbn. lia.
  - intros v Hv. pose proof (casts_numpy1 v ltac:(lia)) as Hcast.
    unfold casts, Np.uint8 in Hcast. now rewrite Z.mod_small in Hcast by lia.
  - intros [|[|j]] Hj.
    + repeat split; try reflexivity. repeat constructor; lia.
    + repeat split; try reflexivity. repeat constructor; lia.
    + exfalso. change (chunks 4 2) with 2%nat in Hj. lia.
Defined.

(** ** The script as shipped *)

Lemma crop_square (data : list Z) (s : Z) :
  0 <= s -> len data = s * s -> crop data = (s, data).
Proof.
  intros Hs Hlen. rewrite crop_eq, Hlen, Z.sqrt_square by assumption.
  rewrite <- Hlen. unfold len. now rewrite Nat2Z.id, firstn_all.
Qed.

Lemma len_pseudorandom (prng : nat -> Z) (n : Z) :
  0 <= n -> len (pseudorandom prng n) = n.
Proof. exact (len_uninitialised prng n). Qed.

(** X16.  With the constants the script is shipped with, 65536 bytes in
    chunks of 10000, the fetcher refuses the sizes before any request, so
    every run of [main] uses the generator, under the fallback label, and
    never contacts the service; the 65536 bytes make a 256 by 256 image
    with no byte cropped. *)
Theorem shipped_run_never_asks_the_service
  (net : nat -> option Response) (uninit prng : nat -> Z) :
  fetch_random_bytes_from_random_org net uninit (N_BYTES shipped)
    (CHUNK_SIZE shipped) (SLEEP_BETWEEN_CALLS shipped) [] =
  (inl (ValueError not_multiple_msg), [])
  /\ acquire net uninit prng shipped =
     (Data fallback_label (pseudorandom prng 65536), [])
  /\ len (pseudorandom prng 65536) = 65536
  /\ crop (pseudorandom prng 65536) = (256, pseudorandom prng 65536).
Proof.
  assert (Hrun : fetch_random_bytes_from_random_org net uninit (256 * 256)
                   10000 (1 # 2) [] = (inl (ValueError not_multiple_msg), [])).
  { apply (fetch_rejects _ _ _ _ _ 5536); [reflexivity|discriminate]. }
  assert (Hsize : 0 <= 65536) by discriminate.
  split; [exact Hrun|]. split.
  - unfold shipped.
    exact (acquire_failed net uninit prng (256 * 256) 10000 (1 # 2) true
             (ValueError not_multiple_msg) [] Hsize Hrun).
  - split; [exact (len_pseudorandom prng 65536 Hsize)|].
    apply crop_square; [discriminate|].
    exact (len_pseudorandom prng 65536 Hsize).
Qed.

(** * The other scripts *)

(** ** HTTP-Int-Gen.py *)

Lemma ints_base_int (int_base : string -> Z -> result Z) (xs : list string) :
  (forall x, int_base x 10 = int x) ->
  HttpIntGen.ints_base int_base xs 10 = ints xs.
Proof.
  intros H. induction xs as [|x xs IH]; [reflexivity|].
  cbn [HttpIntGen.ints_base ints]. now rewrite H, IH.
Qed.

(** X17.  In base 10 the function of HTTP-Int-Gen.py reads an answer as
    the fetcher of visual.py does, issues one request and returns every
    integer of the body: the count [num] that was asked for is not
    compared with what came back, so an answer with fewer or more values,
    which the fetcher refuses, is returned as it is. *)
Theorem http_int_gen_ignores_the_count
  (int_base : string -> Z -> result Z) (r : Response) (vals : list Z)
  (num minimum maximum cols : Z) :
  (forall x, int_base x 10 = int x) ->
  parses_to r vals ->
  HttpIntGen.fetch_true_random_integers int_base (Some r)
    num minimum maximum 10 cols =
  (inr vals,
   [HttpIntGen.Get HttpIntGen.url
      (HttpIntGen.params num minimum maximum 10 cols)]).
Proof.
  intros Hint (Hst & Hmark & Hints).
  unfold HttpIntGen.fetch_true_random_integers.
  now rewrite Hst, Hmark, ints_base_int, Hints.
Qed.

Lemma http_int_gen_ignores_the_count_witness :
  HttpIntGen.fetch_true_random_integers (fun x _ => int x) (ok "12 7")
    5 1 100 10 1 =
  (inr [12; 7],
   [HttpIntGen.Get HttpIntGen.url (HttpIntGen.params 5 1 100 10 1)]).
Proof.
  refine (http_int_gen_ignores_the_count (fun x _ => int x)
            {| status_code := 200; text := "12 7" |} [12; 7] 5 1 100 1 _ _).
  - reflexivity.
  - repeat split; reflexivity.
Defined.

(** ** json-rpc.py *)

Lemma status_passes_test (s : Z) :
  status_passes s -> (400 <=? s) && (s <? 600) = false.
Proof.
  unfold status_passes. intros H.
  destruct (Z.leb_spec 400 s), (Z.ltb_spec s 600); try reflexivity. lia.
Qed.

Lemma get_entry (d : list (string * JsonRpc.json)) (key : string) :
  JsonRpc.get (JsonRpc.JDict d) key = inr (entry key d).
Proof. unfold JsonRpc.get, entry. now destruct (JsonRpc.lookup key d). Qed.

(** The reading of an object without an [error] entry. *)
Lemma read_object (str_json : JsonRpc.json -> string)
  (d : list (string * JsonRpc.json)) (signed : bool) :
  JsonRpc.lookup "error" d = None ->
  JsonRpc.read str_json (JsonRpc.JDict d) signed =
  match JsonRpc.getitem (chosen_result d) "data" with
  | inl e => inl e
  | inr integers =>
      inr (integers, if signed then entry "signature" d else JsonRpc.JNull)
  end.
Proof.
  intros Herr. unfold JsonRpc.read. cbn [JsonRpc.in_]. rewrite Herr.
  rewrite !get_entry. unfold chosen_result.
  destruct (JsonRpc.truthy (entry "result" d));
    destruct (JsonRpc.getitem _ "data"); destruct signed; reflexivity.
Qed.

Section JsonRpcFacts.

Variable str_json : JsonRpc.json -> string.
Variables (api_key : string) (num minimum maximum : Z) (signed : bool).

Let request : list JsonRpc.event :=
  [JsonRpc.Post JsonRpc.invoke_url
     (JsonRpc.payload api_key num minimum maximum signed) JsonRpc.headers].

Let run (reply : option JsonRpc.Reply) :=
  JsonRpc.fetch_random_jsonrpc str_json reply api_key num minimum maximum
    signed.

(** X18.  A reply with a passing status whose decoded body is an object
    with an [error] entry raises [RuntimeError] with the text of that
    entry, whether or not the object also carries a result. *)
Theorem jsonrpc_error_entry_raises
  (rep : JsonRpc.Reply) (d : list (string * JsonRpc.json)) (v : JsonRpc.json) :
  status_passes (JsonRpc.status rep) ->
  JsonRpc.body rep = Some (JsonRpc.JDict d) ->
  JsonRpc.lookup "error" d = Some v ->
  run (Some rep) =
  (inl (JsonRpc.RuntimeError ("random.org error: " ++ str_json v)), request).
Proof.
  intros Hst Hbody Herr. unfold run, JsonRpc.fetch_random_jsonrpc.
  rewrite (status_passes_test _ Hst), Hbody.
  unfold JsonRpc.read, JsonRpc.in_, JsonRpc.getitem. now rewrite Herr.
Qed.

(** X19.  A reply with a passing status whose body is an object without
    an [error] entry and whose [result] is a non-empty object without a
    [data] entry raises [KeyError] for [data], whatever else the reply
    holds: the numbers of a reply that nests them under
    [result.random.data] are not found. *)
Theorem jsonrpc_result_without_data_raises
  (rep : JsonRpc.Reply) (d res : list (string * JsonRpc.json)) :
  status_passes (JsonRpc.status rep) ->
  JsonRpc.body rep = Some (JsonRpc.JDict d) ->
  JsonRpc.lookup "error" d = None ->
  JsonRpc.lookup "result" d = Some (JsonRpc.JDict res) ->
  res <> [] ->
  JsonRpc.lookup "data" res = None ->
  run (Some rep) = (inl (JsonRpc.KeyError "data"), request).
Proof.
  intros Hst Hbody Herr Hres Hne Hdata. unfold run, JsonRpc.fetch_random_jsonrpc.
  rewrite (status_passes_test _ Hst), Hbody.
  unfold JsonRpc.read, JsonRpc.in_, JsonRpc.get, JsonRpc.getitem.
  rewrite Herr, Hres. cbn [JsonRpc.truthy].
  destruct res as [|kv res]; [congruence|]. now rewrite Hdata.
Qed.

(** X20.  The function returns only when a reply came with a passing
    status and an object for a body that has no [error] entry; the
    integers it returns are then the [data] entry of the object that
    [result], or [random] when [result] is absent or false, holds; and the
    signature is the [signature] entry of the reply for a signed call
    ([None] when absent) and always [None] for an unsigned one.  Exactly
    one request was issued. *)
Theorem jsonrpc_returns_data_entry
  (reply : option JsonRpc.Reply) (integers signature : JsonRpc.json)
  (t : list JsonRpc.event) :
  run reply = (inr (integers, signature), t) ->
  exists rep d chosen,
    reply = Some rep
    /\ status_passes (JsonRpc.status rep)
    /\ JsonRpc.body rep = Some (JsonRpc.JDict d)
    /\ JsonRpc.lookup "error" d = None
    /\ chosen_result d = JsonRpc.JDict chosen
    /\ JsonRpc.lookup "data" chosen = Some integers
    /\ signature = (if signed then entry "signature" d else JsonRpc.JNull)
    /\ t = request.
Proof.
  unfold run, JsonRpc.fetch_random_jsonrpc.
  destruct reply as [rep|]; [|discriminate].
  destruct ((400 <=? JsonRpc.status rep) && (JsonRpc.status rep <? 600))
    eqn:Hst; [discriminate|].
  destruct (JsonRpc.body rep) as [data|] eqn:Hbody; [|discriminate].
  intros [= Hread <-].
  assert (Hpass : status_passes (JsonRpc.status rep)).
  { unfold status_passes. intros [H1 H2].
    apply andb_false_iff in Hst as [Hst|Hst];
      [apply Z.leb_gt in Hst|apply Z.ltb_ge in Hst]; lia. }
  destruct data as [| | | |s|l|d].
  1-4: unfold JsonRpc.read in Hread; cbn in Hread; discriminate.
  - unfold JsonRpc.read in Hread. cbn [JsonRpc.in_] in Hread.
    destruct (JsonRpc.contains "error" s); cbn in Hread; discriminate.
  - unfold JsonRpc.read in Hread. cbn [JsonRpc.in_] in Hread.
    destruct (existsb (JsonRpc.is_str "error") l); cbn in Hread; discriminate.
  - destruct (JsonRpc.lookup "error" d) as [v|] eqn:Herr.
    { unfold JsonRpc.read in Hread. cbn [JsonRpc.in_ JsonRpc.getitem] in Hread.
      rewrite Herr in Hread. discriminate. }
    rewrite (read_object str_json d signed Herr) in Hread.
    destruct (chosen_result d) as [| | | | | |chosen] eqn:Hch;
      cbn [JsonRpc.getitem] in Hread; try discriminate.
    destruct (JsonRpc.lookup "data" chosen) as [ints|] eqn:Hdata;
      [|discriminate].
    injection Hread as <- <-.
    exists rep, d, chosen. repeat split; auto.
Qed.

End JsonRpcFacts.

Lemma jsonrpc_error_entry_raises_witness :
  JsonRpc.fetch_random_jsonrpc show (Some (replied error_reply))
    "key" 5 0 100 false =
  (inl (JsonRpc.RuntimeError ("random.org error: " ++ show error_object)),
   [JsonRpc.Post JsonRpc.invoke_url (JsonRpc.payload "key" 5 0 100 false)
      JsonRpc.headers]).
Proof.
  refine (jsonrpc_error_entry_raises show "key" 5 0 100 false
            (replied error_reply) error_reply error_object _ _ _).
  - unfold status_passes. cbn. lia.
  - reflexivity.
  - reflexivity.
Defined.

Lemma jsonrpc_result_without_data_raises_witness :
  JsonRpc.fetch_random_jsonrpc show (Some (replied nested_reply))
    "key" 2 0 9 false =
  (inl (JsonRpc.KeyError "data"),
   [JsonRpc.Post JsonRpc.invoke_url (JsonRpc.payload "key" 2 0 9 false)
      JsonRpc.headers]).
Proof.
  refine (jsonrpc_result_without_data_raises show "key" 2 0 9 false
            (replied nested_reply) nested_reply nested_result _ _ _ _ _ _).
  - unfold status_passes. cbn. lia.
  - reflexivity.
  - reflexivity.
  - reflexivity.
  - discriminate.
  - reflexivity.
Defined.

Lemma jsonrpc_returns_data_entry_witness :
  exists rep d chosen,
    Some (replied flat_reply) = Some rep
    /\ status_passes (JsonRpc.status rep)
    /\ JsonRpc.body rep = Some (JsonRpc.JDict d)
    /\ JsonRpc.lookup "error" d = None
    /\ chosen_result d = JsonRpc.JDict chosen
    /\ JsonRpc.lookup "data" chosen =
       Some (JsonRpc.JList [JsonRpc.JInt 4; JsonRpc.JInt 9])
    /\ JsonRpc.JNull = JsonRpc.JNull
    /\ [JsonRpc.Post JsonRpc.invoke_url (JsonRpc.payload "key" 2 0 9 false)
          JsonRpc.headers] =
       [JsonRpc.Post JsonRpc.invoke_url (JsonRpc.payload "key" 2 0 9 false)
          JsonRpc.headers].
Proof.
  refine (jsonrpc_returns_data_entry show "key" 2 0 9 false
            (Some (replied flat_reply))
            (JsonRpc.JList [JsonRpc.JInt 4; JsonRpc.JInt 9]) JsonRpc.JNull
            _ _).
  reflexivity.
Defined.
